(** * Benchmark.py: the Othello match-orchestration driver

    A shallow embedding of [src/Benchmark.py] and the properties of its
    log classification, log polling, process teardown, match runner, worker
    lanes and result merge.

    Conventions of the embedding.
    - A Python [str] is a [string]; its characters are the code points
      U+0000..U+00FF.
    - A file system snapshot is a finite map from path to text; a missing
      key is a missing file ([FileNotFoundError], [Path.exists() = False]).
    - Clock readings ([time.time()]) and durations are integers, in
      milliseconds.
    - Whatever the outside world decides (the clock, the contents of the log
      files, exit codes, the arrival of a signal) is an explicit input. *)

From Stdlib Require Import ZArith Lia Bool Ascii String DecimalString.
From Stdlib Require DecimalPos DecimalZ.
From Stdlib Require Import Sorting.Permutation Sorting.Sorted.
From stdpp Require Import base option list sorting gmap strings.

Local Open Scope Z_scope.

(* ===================================================================== *)
(** * Python string operations used by the script                        *)
(* ===================================================================== *)

Module PyStr.

(** [line.startswith(p)] *)
Fixpoint startswith (p s : string) : bool :=
match p, s with
| EmptyString, _ => true
| String a p', String b s' => if Ascii.eqb a b then startswith p' s' else false
| String _ _, EmptyString => false
end.

(** [p in s]: [p] occurs in [s] as a contiguous substring. *)
Fixpoint contains (p s : string) : bool :=
startswith p s ||
match s with
| EmptyString => false
| String _ s' => contains p s'
end.

(** [str.lower()] on one character of U+0000..U+00FF: the letters A-Z and
  the Latin-1 capitals U+00C0..U+00DE (but not the multiplication sign
  U+00D7) move up by 32; every other character is unchanged. *)
Definition lower_char (c : ascii) : ascii :=
let n := N_of_ascii c in
if ((65 <=? n) && (n <=? 90))%N then ascii_of_N (n + 32)
else if ((192 <=? n) && (n <=? 222) && negb (n =? 215))%N then ascii_of_N (n + 32)
else c.

Fixpoint lower (s : string) : string :=
match s with
| EmptyString => EmptyString
| String c s' => String (lower_char c) (lower s')
end.

(** The line boundaries of [str.splitlines()] below U+0100:
  LF, VT, FF, CR, FS, GS, RS and NEL. *)
Definition is_linebreak (c : ascii) : bool :=
match N_of_ascii c with
| 10 | 11 | 12 | 13 | 28 | 29 | 30 | 133 => true
| _ => false
end%N.

Definition is_cr (c : ascii) : bool := (N_of_ascii c =? 13)%N.
Definition is_lf (c : ascii) : bool := (N_of_ascii c =? 10)%N.

(** [s.splitlines()]: the lines of [s] without their terminators; CR LF is
  one terminator; a terminator at the very end opens no further line. *)
Fixpoint splitlines (s : string) : list string :=
match s with
| EmptyString => []
| String c s' =>
    if is_linebreak c then
      EmptyString ::
        (if is_cr c then
           match s' with
           | String c2 s'' => if is_lf c2 then splitlines s'' else splitlines s'
           | EmptyString => []
           end
         else splitlines s')
    else
      match splitlines s' with
      | [] => [String c EmptyString]
      | l :: ls => String c l :: ls
      end
end.

(** [str(n)] for an [int]. *)
Definition str_of_Z (n : Z) : string := NilZero.string_of_int (Z.to_int n).

End PyStr.

(* ===================================================================== *)
(** * Data model                                                          *)
(* ===================================================================== *)

(** The values of the [winner] column. *)
Inductive Winner :=
  | my | monte | draw | unknown | no_end | no_log | server_no_port | stopped.

(** The text written to the summary table for each outcome. *)
Definition winner_str (w : Winner) : string :=
  match w with
  | my => "my" | monte => "monte" | draw => "draw" | unknown => "unknown"
  | no_end => "no_end" | no_log => "no_log"
  | server_no_port => "server_no_port" | stopped => "stopped"
  end.

(** A snapshot of the files under the output directory: path to text. *)
Abbreviation FS := (gmap string string).

(* ===================================================================== *)
(** * [parse_winner_from_log]                                             *)
(* ===================================================================== *)

(** The body of the [if line.startswith("END "):] block: the new value of
    [winner]. *)
Definition classify_end_line (line : string) : Winner :=
  if PyStr.contains " win." line then my
  else if PyStr.contains " lose." line then monte
  else if PyStr.contains "draw" (PyStr.lower line) then draw
  else unknown.

(** One iteration of the [for line in ...] loop, as a state update of
    [winner]. *)
Definition scan_line (winner : Winner) (line : string) : Winner :=
  if PyStr.startswith "END " line then classify_end_line line else winner.

(** The loop over the lines of a text, from [winner = "no_end"]. *)
Definition parse_winner_from_text (text : string) : Winner :=
  fold_left scan_line (PyStr.splitlines text) no_end.

Definition parse_winner_from_log (fs : FS) (path : string) : Winner :=
  match fs !! path with
  | None => no_log
  | Some text => parse_winner_from_text text
  end.

(* ===================================================================== *)
(** * Log polling: [wait_server_ready] and [wait_end_in_log]              *)
(* ===================================================================== *)

(** What one iteration of a polling loop observes: the clock read by the
    loop test, and the files as they are when the body reads the log. *)
Record Poll := { poll_clock : Z; poll_files : FS }.

(** The [while time.time() < deadline:] loop of [wait_server_ready] over the
    successive observations.  [None]: the observations given end while the
    loop is still running. *)
Fixpoint wait_server_ready_loop (log_path : string) (deadline : Z)
    (polls : list Poll) : option bool :=
  match polls with
  | [] => None
  | p :: rest =>
      if poll_clock p <? deadline then
        match poll_files p !! log_path with
        | Some text =>
            if PyStr.contains "Othello Server" text && PyStr.contains "tcp port:" text
            then Some true
            else wait_server_ready_loop log_path deadline rest
        | None => wait_server_ready_loop log_path deadline rest
        end
      else Some false
  end.

(** [start] is the clock read by [deadline = time.time() + timeout_s]. *)
Definition wait_server_ready (log_path : string) (timeout_ms : Z)
    (start : Z) (polls : list Poll) : option bool :=
  wait_server_ready_loop log_path (start + timeout_ms) polls.

(** The loop of [wait_end_in_log]. *)
Fixpoint wait_end_in_log_loop (path : string) (deadline : Z)
    (polls : list Poll) : option bool :=
  match polls with
  | [] => None
  | p :: rest =>
      if poll_clock p <? deadline then
        match poll_files p !! path with
        | Some text =>
            if PyStr.contains "END " text then Some true
            else wait_end_in_log_loop path deadline rest
        | None => wait_end_in_log_loop path deadline rest
        end
      else Some false
  end.

Definition wait_end_in_log (path : string) (timeout_ms : Z)
    (start : Z) (polls : list Poll) : option bool :=
  wait_end_in_log_loop path (start + timeout_ms) polls.

(* ===================================================================== *)
(** * Process teardown: [kill_tree]                                       *)
(* ===================================================================== *)

Inductive Signal := SIGTERM | SIGKILL.

(** The exceptions the process calls raise; all are subclasses of
    [Exception]. *)
Inductive Exn := ProcessLookupError | PermissionError | ChildProcessError.

Inductive Outcome (A : Type) :=
  | Returned (a : A)
  | Raised (e : Exn).
Arguments Returned {A} a.
Arguments Raised {A} e.

(** A [subprocess.Popen] object: the child it started (a serial number that
    tells apart successive holders of one pid) and that child's pid. *)
Record Popen := { popen_child : nat; pid : Z }.

(** The process calls [kill_tree] makes, over an arbitrary system state. *)
Class ProcessAPI (St : Type) := {
  os_getpgid : Z -> St -> Outcome Z * St;
  os_killpg : Z -> Signal -> St -> Outcome unit * St;
  popen_send_signal : Popen -> Signal -> St -> Outcome unit * St;
  time_sleep : Z -> St -> St
}.

Section KillTree.
Context {St : Type} `{ProcessAPI St}.

(** Computations that may raise. *)
Definition Sys (A : Type) : Type := St -> Outcome A * St.

Definition sys_ret {A} (a : A) : Sys A := fun st => (Returned a, st).

Definition sys_bind {A B} (m : Sys A) (k : A -> Sys B) : Sys B :=
  fun st =>
    match m st with
    | (Returned a, st') => k a st'
    | (Raised e, st') => (Raised e, st')
    end.

(** [try: m  except Exception: h] *)
Definition try_except {A} (m : Sys A) (h : Sys A) : Sys A :=
  fun st =>
    match m st with
    | (Returned a, st') => (Returned a, st')
    | (Raised _, st') => h st'
    end.

(** The inner function [_kill(sig)], closed over [pgid] and [proc]. *)
Definition _kill (proc : Popen) (pgid : option Z) (sig : Signal) : Sys unit :=
  try_except
    (match pgid with
     | Some g => os_killpg g sig
     | None => popen_send_signal proc sig
     end)
    (sys_ret tt).

Definition kill_tree (proc : option Popen) (grace_ms : Z) : Sys unit :=
  match proc with
  | None => sys_ret tt
  | Some proc =>
      sys_bind
        (try_except
           (sys_bind (os_getpgid (pid proc)) (fun g => sys_ret (Some g)))
           (sys_ret None))
        (fun pgid =>
           sys_bind (_kill proc pgid SIGTERM) (fun _ =>
           sys_bind (fun st => (Returned tt, time_sleep grace_ms st)) (fun _ =>
           _kill proc pgid SIGKILL)))
  end.
End KillTree.

(** ** A process table

    The system state the calls above act on: the processes that hold a pid
    (running, or exited and not yet reaped), and the [returncode] field of
    the [Popen] objects, by child.  A signal takes effect when it is sent,
    and nothing else changes the table while [kill_tree] runs. *)

Inductive PState := Running | Zombie.

Record Proc := {
  proc_child : nat;         (* which started child holds the pid *)
  proc_pgid : Z;            (* its process group *)
  proc_state : PState;
  proc_term_fatal : bool;   (* SIGTERM ends it (it has no handler that survives) *)
  proc_status : Z           (* the status it is reaped with *)
}.

Record Sysstate := {
  procs : gmap Z Proc;
  returncodes : gmap nat Z
}.

(** Delivery of a signal to one process: SIGKILL always ends a running
    process, SIGTERM ends it unless it survives SIGTERM; an exited process
    is not affected. *)
Definition deliver (sig : Signal) (p : Proc) : Proc :=
  match proc_state p, sig with
  | Zombie, _ => p
  | Running, SIGKILL =>
      {| proc_child := proc_child p; proc_pgid := proc_pgid p; proc_state := Zombie;
         proc_term_fatal := proc_term_fatal p; proc_status := -9 |}
  | Running, SIGTERM =>
      if proc_term_fatal p then
        {| proc_child := proc_child p; proc_pgid := proc_pgid p; proc_state := Zombie;
           proc_term_fatal := proc_term_fatal p; proc_status := -15 |}
      else p
  end.

Definition deliver_group (g : Z) (sig : Signal) (p : Proc) : Proc :=
  if decide (proc_pgid p = g) then deliver sig p else p.

Definition group_nonempty (g : Z) (tbl : gmap Z Proc) : bool :=
  existsb (fun kp => bool_decide (proc_pgid kp.2 = g)) (map_to_list tbl).

(** [os.getpgid(pid)]: the group of whichever process holds [pid] now. *)
Definition table_getpgid (p : Z) (st : Sysstate) : Outcome Z * Sysstate :=
  match procs st !! p with
  | Some pr => (Returned (proc_pgid pr), st)
  | None => (Raised ProcessLookupError, st)
  end.

(** [os.killpg(pgid, sig)]: every member of the group gets the signal. *)
Definition table_killpg (g : Z) (sig : Signal) (st : Sysstate) : Outcome unit * Sysstate :=
  if group_nonempty g (procs st) then
    (Returned tt,
     {| procs := deliver_group g sig <$> procs st; returncodes := returncodes st |})
  else (Raised ProcessLookupError, st).

(** [Popen.send_signal(sig)]: polls first, and sends nothing once the
    return code is known. *)
Definition table_send_signal (h : Popen) (sig : Signal) (st : Sysstate) : Outcome unit * Sysstate :=
  match returncodes st !! popen_child h with
  | Some _ => (Returned tt, st)
  | None =>
      match procs st !! pid h with
      | Some pr =>
          if decide (proc_child pr = popen_child h) then
            match proc_state pr with
            | Zombie =>
                (Returned tt,
                 {| procs := delete (pid h) (procs st);
                    returncodes := <[popen_child h := proc_status pr]> (returncodes st) |})
            | Running =>
                (Returned tt,
                 {| procs := <[pid h := deliver sig pr]> (procs st);
                    returncodes := returncodes st |})
            end
          else
            (Returned tt,
             {| procs := procs st; returncodes := <[popen_child h := 0]> (returncodes st) |})
      | None =>
          (Returned tt,
           {| procs := procs st; returncodes := <[popen_child h := 0]> (returncodes st) |})
      end
  end.

#[export] Instance table_api : ProcessAPI Sysstate := {
  os_getpgid := table_getpgid;
  os_killpg := table_killpg;
  popen_send_signal := table_send_signal;
  time_sleep := fun _ st => st
}.

(* ===================================================================== *)
(** * The match runner: [run_one_game]                                    *)
(* ===================================================================== *)

Inductive Order := my_first | monte_first.

Definition order_str (o : Order) : string :=
  match o with my_first => "my-first" | monte_first => "monte-first" end.

(** One row of the summary table: the [dict] returned by [run_one_game].
    [my_seconds] is a float that is only ever printed; it is carried as its
    printed form. *)
Record Row := {
  game : Z; worker : Z; host : string; port : Z; connect_order : Order;
  my_mode : string; my_seconds : string; monte_seconds : Z; server_timeout : Z;
  winner : Winner; my_exit : Z; monte_exit : Z
}.

Inductive Role := Server | MyClient | MonteClient.

(** What a lane does to the outside world, in order. *)
Inductive Event :=
  | Spawned (r : Role) (g : Z) (cmd : list string) (log : string)
      (* subprocess.Popen(cmd, ..., start_new_session=True) *)
  | TeeStarted (g : Z)               (* tee_thread.start() *)
  | TeeJoined (g : Z)                (* tee_thread.join(timeout=1.0) *)
  | Slept (ms : Z)                   (* time.sleep between the two clients *)
  | Waited (r : Role) (g : Z)        (* p.wait(timeout=10) *)
  | KillTree (r : Role) (g : Z).     (* kill_tree(handle) *)

(** What the outside world decides during one game. *)
Record GameEnv := {
  ready_start : Z;             (* the clock when wait_server_ready starts *)
  ready_polls : list Poll;     (* what its loop observes *)
  end_start : Z;               (* the clock when wait_end_in_log starts *)
  end_polls : list Poll;       (* what its loop observes *)
  my_wait : option Z;          (* my.wait(timeout=10): exit code, None = TimeoutExpired *)
  monte_wait : option Z;       (* monte.wait(timeout=10) *)
  final_files : FS             (* the files when the log is classified *)
}.

(** The state a lane threads through its games: how many more reads of
    [stop_event.is_set()] return [False] before the signal handler has set
    the flag ([None]: it is never set), and the events so far.  The flag is
    set once and never cleared. *)
Record World := { stop_in : option nat; trace : list Event }.

(** A lane computation; [None] when the observations given run out (or the
    fuel of a loop does) before it returns. *)
Definition M (A : Type) : Type := World -> option (A * World).

Definition ret {A} (a : A) : M A := fun w => Some (a, w).

Definition bind {A B} (m : M A) (k : A -> M B) : M B :=
  fun w => match m w with
           | Some (a, w') => k a w'
           | None => None
           end.

Notation "'let*' x ':=' c1 'in' c2" := (bind c1 (fun x => c2))
  (at level 10, x name, c1 at level 100, c2 at level 200).
Notation "'let*' ' x ':=' c1 'in' c2" := (bind c1 (fun x => c2))
  (at level 10, x pattern, c1 at level 100, c2 at level 200).
Notation "c1 '>>' c2" := (bind c1 (fun _ => c2))
  (at level 199, right associativity).

Definition emit (e : Event) : M unit :=
  fun w => Some (tt, {| stop_in := stop_in w; trace := trace w ++ [e] |}).

(** An observation supplied by the environment. *)
Definition observe {A} (o : option A) : M A :=
  fun w => match o with Some a => Some (a, w) | None => None end.

(** [stop_event.is_set()] *)
Definition is_set : M bool :=
  fun w =>
    match stop_in w with
    | None => Some (false, w)
    | Some O => Some (true, w)
    | Some (S k) => Some (false, {| stop_in := Some k; trace := trace w |})
    end.

(** [try: body  finally: cleanup]: the cleanup runs after the body,
    whichever [return] the body left through, and the body's value is
    returned. *)
Definition try_finally {A} (body : M A) (cleanup : M unit) : M A :=
  let* r := body in cleanup >> ret r.

Definition when (b : bool) (m : M unit) : M unit := if b then m else ret tt.

(** [dir / name] *)
Definition path_join (dir name : string) : string := dir +:+ "/" +:+ name.

Section Runner.
(** The arguments every game of a run shares. *)
Variables (host_arg : string) (out_dir : string).
Variables (my_mode_arg : string) (my_seconds_arg : string) (monte_seconds_arg : Z).
Variables (server_timeout_arg : Z) (wall_timeout_s : Z).
Variables (monitor : bool) (stream_server_log : bool).

Definition log_name (role : string) (worker game : Z) : string :=
  role +:+ "_w" +:+ PyStr.str_of_Z worker +:+ "_g" +:+ PyStr.str_of_Z game +:+ ".log".

(** The inner function [wait_short(p)]. *)
Definition wait_short (r : Role) (game : Z) (waited : option Z) : M Z :=
  emit (Waited r game) >>
  match waited with
  | Some ec => ret ec
  | None => emit (KillTree r game) >> ret 124
  end.

Definition run_one_game (env : GameEnv) (game worker port : Z) : M Row :=
  let order := if game mod 2 =? 1 then my_first else monte_first in
  let server_log := path_join out_dir (log_name "server" worker game) in
  let my_log := path_join out_dir (log_name "my" worker game) in
  let monte_log := path_join out_dir (log_name "monte" worker game) in
  let server_cmd :=
    ["java"; "-Djava.awt.headless=false"; "-jar"; "Server/OthelloServer.jar";
     "-port"; PyStr.str_of_Z port; "-timeout"; PyStr.str_of_Z server_timeout_arg]
    ++ (if monitor then ["-monitor"] else []) in
  let result (w : Winner) (my_ec monte_ec : Z) : Row :=
    {| game := game; worker := worker; host := host_arg; port := port;
       connect_order := order; my_mode := my_mode_arg; my_seconds := my_seconds_arg;
       monte_seconds := monte_seconds_arg; server_timeout := server_timeout_arg;
       winner := w; my_exit := my_ec; monte_exit := monte_ec |} in
  let* stop := is_set in
  if stop then ret (result stopped 130 130)
  else
    emit (Spawned Server game server_cmd server_log) >>
    when stream_server_log (emit (TeeStarted game)) >>
    try_finally
      (let* ready := observe (wait_server_ready server_log 12000
                                (ready_start env) (ready_polls env)) in
       if negb ready then ret (result server_no_port 124 124)
       else
         let my_cmd := ["java"; "-cp"; "Src"; "OthelloClientBench"; host_arg;
                        PyStr.str_of_Z port; my_mode_arg; my_seconds_arg] in
         let monte_cmd := ["java"; "-cp"; "TestSet"; "OthelloMonteAI"; host_arg;
                           PyStr.str_of_Z port; PyStr.str_of_Z monte_seconds_arg] in
         (match order with
          | my_first =>
              emit (Spawned MyClient game my_cmd my_log) >>
              emit (Slept 100) >>
              emit (Spawned MonteClient game monte_cmd monte_log)
          | monte_first =>
              emit (Spawned MonteClient game monte_cmd monte_log) >>
              emit (Slept 100) >>
              emit (Spawned MyClient game my_cmd my_log)
          end) >>
         let* got_end := observe (wait_end_in_log my_log (1000 * wall_timeout_s)
                                    (end_start env) (end_polls env)) in
         if negb got_end then
           emit (KillTree MyClient game) >>
           emit (KillTree MonteClient game) >>
           ret (result no_end 124 124)
         else
           emit (KillTree Server game) >>
           let* my_ec := wait_short MyClient game (my_wait env) in
           let* monte_ec := wait_short MonteClient game (monte_wait env) in
           let w := parse_winner_from_log (final_files env) my_log in
           ret (result w my_ec monte_ec))
      (emit (KillTree Server game) >>
       when stream_server_log (emit (TeeJoined game))).

(* =================================================================== *)
(** * The worker lane: [worker_loop]                                    *)
(* =================================================================== *)

(** The [while] loop, from the current [game] and [results]; one unit of
    fuel per test of the loop condition. *)
Fixpoint worker_loop_from (fuel : nat) (envs : Z -> GameEnv)
    (worker games parallel port : Z) (game : Z) (results : list Row) : M (list Row) :=
  match fuel with
  | O => fun _ => None
  | S fuel' =>
      if game <=? games then
        let* stop := is_set in
        if stop then ret results
        else
          let* r := run_one_game (envs game) game worker port in
          worker_loop_from fuel' envs worker games parallel port
            (game + parallel) (results ++ [r])
      else ret results
  end.

Definition worker_loop (fuel : nat) (envs : Z -> GameEnv)
    (worker games parallel port_base : Z) : M (list Row) :=
  let port := port_base + worker in
  worker_loop_from fuel envs worker games parallel port (worker + 1) [].

(* =================================================================== *)
(** * The orchestrator: the merge of [main]                             *)
(* =================================================================== *)

(** What the outside world decides for one lane. *)
Record LaneEnv := { lane_stop_in : option nat; lane_games : Z -> GameEnv }.

(** The value of one future: the rows of the lane (its events are kept
    beside them). *)
Definition run_lane (fuel : nat) (lanes : Z -> LaneEnv)
    (games parallel port_base : Z) (worker : Z) : option (list Row * list Event) :=
  match worker_loop fuel (lane_games (lanes worker)) worker games parallel port_base
          {| stop_in := lane_stop_in (lanes worker); trace := [] |} with
  | Some (rows, w) => Some (rows, trace w)
  | None => None
  end.

(** [results.sort(key=lambda r: r["game"])]: a stable sort by game. *)
Fixpoint insert_row (r : Row) (l : list Row) : list Row :=
  match l with
  | [] => [r]
  | x :: xs => if game r <=? game x then r :: l else x :: insert_row r xs
  end.

Definition sort_rows (l : list Row) : list Row := foldr insert_row [] l.

(** [range(n)] *)
Definition range (n : Z) : list Z := map Z.of_nat (seq 0 (Z.to_nat n)).

(** The futures are those of the workers of [range(parallel)];
    [completion] is the order in which [as_completed] yields them.  The
    rows of each are appended to [results], which is then sorted. *)
Fixpoint collect (fuel : nat) (lanes : Z -> LaneEnv) (games parallel port_base : Z)
    (completion : list Z) (results : list Row) : option (list Row) :=
  match completion with
  | [] => Some results
  | worker :: rest =>
      match run_lane fuel lanes games parallel port_base worker with
      | Some (rows, _) => collect fuel lanes games parallel port_base rest (results ++ rows)
      | None => None
      end
  end.

Definition main_results (fuel : nat) (lanes : Z -> LaneEnv) (games parallel port_base : Z)
    (completion : list Z) : option (list Row) :=
  match collect fuel lanes games parallel port_base completion [] with
  | Some results => Some (sort_rows results)
  | None => None
  end.
End Runner.

(* ===================================================================== *)
(** * [wait_port]                                                         *)
(* ===================================================================== *)

(** What one iteration of [wait_port] observes: the clock read by the loop
    test, and which addresses accept a connection when the body tries one
    ([socket.create_connection] returns, or raises [OSError]). *)
Record Probe := { probe_clock : Z; probe_accepts : string -> Z -> bool }.

Fixpoint wait_port_loop (host : string) (port : Z) (deadline : Z)
    (probes : list Probe) : option bool :=
  match probes with
  | [] => None
  | p :: rest =>
      if probe_clock p <? deadline then
        if probe_accepts p host port then Some true
        else wait_port_loop host port deadline rest
      else Some false
  end.

Definition wait_port (host : string) (port : Z) (timeout_ms : Z)
    (start : Z) (probes : list Probe) : option bool :=
  wait_port_loop host port (start + timeout_ms) probes.

(* ===================================================================== *)
(** * [tee_lines]                                                         *)
(* ===================================================================== *)

(** What the tee thread acts on: the files, the lines printed on the
    console, and how many more reads of [stop_event.is_set()] return
    [False] ([None]: the flag is never set). *)
Record TeeState := {
  tee_files : FS;
  tee_console : list string;
  tee_stop_in : option nat
}.

(** [log_path.open("w")]: the file is created, or emptied. *)
Definition tee_open (log_path : string) (s : TeeState) : TeeState :=
  {| tee_files := <[log_path := EmptyString]> (tee_files s);
     tee_console := tee_console s; tee_stop_in := tee_stop_in s |}.

(** [fp.write(line); fp.flush()] *)
Definition tee_write (log_path line : string) (s : TeeState) : TeeState :=
  {| tee_files :=
       <[log_path := default EmptyString (tee_files s !! log_path) +:+ line]> (tee_files s);
     tee_console := tee_console s; tee_stop_in := tee_stop_in s |}.

(** [stop_event.is_set()], read by the tee thread. *)
Definition tee_is_set (s : TeeState) : bool * TeeState :=
  match tee_stop_in s with
  | None => (false, s)
  | Some O => (true, s)
  | Some (S k) =>
      (false, {| tee_files := tee_files s; tee_console := tee_console s;
                 tee_stop_in := Some k |})
  end.

(** [print(f"{prefix}{line}", end="", flush=True)] *)
Definition tee_print (text : string) (s : TeeState) : TeeState :=
  {| tee_files := tee_files s; tee_console := tee_console s ++ [text];
     tee_stop_in := tee_stop_in s |}.

(** The body of [for line in proc.stdout:]. *)
Definition tee_line (log_path prefix : string) (s : TeeState) (line : string) : TeeState :=
  let s1 := tee_write log_path line s in
  let (stop, s2) := tee_is_set s1 in
  if negb stop then tee_print (prefix +:+ line) s2 else s2.

(** [stdout] holds the lines the process writes until it closes its
    output. *)
Definition tee_lines (stdout : list string) (log_path prefix : string)
    (s : TeeState) : TeeState :=
  fold_left (tee_line log_path prefix) stdout (tee_open log_path s).

(* ===================================================================== *)
(** * The vocabulary of the properties                                 *)
(* ===================================================================== *)

(** ** Logs *)

(** The terminal-event marker. *)
Definition END_MARKER : string := "END ".

(** The lines of a text that begin with the marker, in order. *)
Definition terminal_lines (text : string) : list string :=
  List.filter (PyStr.startswith END_MARKER) (PyStr.splitlines text).

Fixpoint has_linebreak (s : string) : bool :=
  match s with
  | EmptyString => false
  | String c s' => PyStr.is_linebreak c || has_linebreak s'
  end.

(** The first line of [splitlines] starts the text, and every further
    line is a contiguous part of it. *)
Definition lines_within (text : string) (ls : list string) : Prop :=
  match ls with
  | [] => True
  | l0 :: rest =>
      (exists tl, text = l0 +:+ tl) /\
      (forall l, In l rest -> exists hd tl, text = hd +:+ l +:+ tl)
  end.

(** A line feed, to write the texts of example logs. *)
Definition LF : string := String (ascii_of_N 10) EmptyString.

(** ** Polling *)

(** What one poll of [wait_end_in_log] finds: the log exists and its text
    contains "END ". *)
Definition saw_end (path : string) (p : Poll) : bool :=
  match poll_files p !! path with
  | Some text => PyStr.contains "END " text
  | None => false
  end.

(** The loop is still running after every poll of [before]: each was made
    before the deadline and found nothing. *)
Definition polled_in_vain (path : string) (deadline : Z) (before : list Poll) : Prop :=
  Forall (fun q => poll_clock q < deadline /\ saw_end path q = false) before.

(** ** The process table *)

(** The state [kill_tree] leaves. *)
Definition after_kill_tree (h : Popen) (grace_ms : Z) (st : Sysstate) : Sysstate :=
  (kill_tree (Some h) grace_ms st).2.

(** The group [kill_tree] signals: that of the process holding the pid of
    the handle when it is called, if there is one. *)
Definition target_group (h : Popen) (st : Sysstate) : option Z :=
  proc_pgid <$> procs st !! pid h.

(** ** Events and worlds *)

Definition role_eqb (a b : Role) : bool :=
  match a, b with
  | Server, Server | MyClient, MyClient | MonteClient, MonteClient => true
  | _, _ => false
  end.

(** The process events, commands and logs left out. *)
Inductive Act := ASpawn (r : Role) | AKill (r : Role) | AWait (r : Role) | ASleep | ATee.

Definition act_of (e : Event) : Act :=
  match e with
  | Spawned r _ _ _ => ASpawn r
  | KillTree r _ => AKill r
  | Waited r _ => AWait r
  | Slept _ => ASleep
  | TeeStarted _ | TeeJoined _ => ATee
  end.

Definition act_eqb (a b : Act) : bool :=
  match a, b with
  | ASpawn r, ASpawn r' | AKill r, AKill r' | AWait r, AWait r' => role_eqb r r'
  | ASleep, ASleep | ATee, ATee => true
  | _, _ => false
  end.

Definition occurrences (a : Act) (acts : list Act) : nat :=
  length (List.filter (act_eqb a) acts).

(** How many processes of a role a run of events starts, and how many times
    it calls [kill_tree] on the handle of that role. *)
Definition spawns (r : Role) (evs : list Event) : nat :=
  occurrences (ASpawn r) (map act_of evs).

Definition kills (r : Role) (evs : list Event) : nat :=
  occurrences (AKill r) (map act_of evs).

(** The world after [evs] more events. *)
Definition add_events (w : World) (evs : list Event) : World :=
  {| stop_in := stop_in w; trace := trace w ++ evs |}.

(** The world after one read of the flag that found it unset. *)
Definition after_read (w : World) : World :=
  match stop_in w with
  | Some (S k) => {| stop_in := Some k; trace := trace w |}
  | _ => w
  end.

(** The events of [wait_short]. *)
Definition wait_events (r : Role) (g : Z) (waited : option Z) : list Event :=
  Waited r g :: match waited with Some _ => [] | None => [KillTree r g] end.

Definition wait_code (waited : option Z) : Z :=
  match waited with Some ec => ec | None => 124 end.

(** ** Games and lanes *)

(** The indices [first], [first + step], [first + 2 step], ... up to
    [last]. *)
Definition stride (first step last : Z) : list Z :=
  map (fun k => first + Z.of_nat k * step)
      (seq 0 (Z.to_nat ((last - first) / step + 1))).

(** The order [results.sort] sorts by. *)
Definition by_game (a b : Row) : Prop := game a <= game b.

Section Vocabulary.

Variables (host_arg : string) (out_dir : string).
Variables (my_mode_arg : string) (my_seconds_arg : string) (monte_seconds_arg : Z).
Variables (server_timeout_arg : Z) (wall_timeout_s : Z).
Variables (monitor : bool) (stream_server_log : bool).

(** The log paths of a game. *)
Definition server_log_of (worker g : Z) : string :=
  path_join out_dir (log_name "server" worker g).

Definition my_log_of (worker g : Z) : string :=
  path_join out_dir (log_name "my" worker g).

(** What the two waits of a game return, from what the game observes. *)
Definition ready_of (env : GameEnv) (worker g : Z) : option bool :=
  wait_server_ready (server_log_of worker g) 12000 (ready_start env) (ready_polls env).

Definition got_end_of (env : GameEnv) (worker g : Z) : option bool :=
  wait_end_in_log (my_log_of worker g) (1000 * wall_timeout_s) (end_start env) (end_polls env).

(** The events of a game, by the way it leaves the runner. *)
Inductive GamePath :=
  | PathStopped                                 (* the flag was set: nothing is started *)
  | PathNoPort                                  (* the server never announced itself *)
  | PathNoEnd                                   (* no "END " within the wall timeout *)
  | PathEnd (my_w monte_w : option Z).          (* "END " seen; the two waits *)

Definition path_of (env : GameEnv) (worker g : Z) : option GamePath :=
  match ready_of env worker g with
  | None => None
  | Some false => Some PathNoPort
  | Some true =>
      match got_end_of env worker g with
      | None => None
      | Some false => Some PathNoEnd
      | Some true => Some (PathEnd (my_wait env) (monte_wait env))
      end
  end.

Definition client_acts (g : Z) : list Act :=
  if g mod 2 =? 1 then [ASpawn MyClient; ASleep; ASpawn MonteClient]
  else [ASpawn MonteClient; ASleep; ASpawn MyClient].

Definition wait_acts (r : Role) (waited : option Z) : list Act :=
  AWait r :: match waited with Some _ => [] | None => [AKill r] end.

Definition tee_acts : list Act := if stream_server_log then [ATee] else [].

Definition path_acts (g : Z) (p : GamePath) : list Act :=
  match p with
  | PathStopped => []
  | PathNoPort => [ASpawn Server] ++ tee_acts ++ [AKill Server] ++ tee_acts
  | PathNoEnd =>
      [ASpawn Server] ++ tee_acts ++ client_acts g ++
      [AKill MyClient; AKill MonteClient] ++ [AKill Server] ++ tee_acts
  | PathEnd my_w monte_w =>
      [ASpawn Server] ++ tee_acts ++ client_acts g ++ [AKill Server] ++
      wait_acts MyClient my_w ++ wait_acts MonteClient monte_w ++
      [AKill Server] ++ tee_acts
  end.

(** The [winner] and the two exit codes of a path. *)
Definition path_winner (env : GameEnv) (worker g : Z) (p : GamePath) : Winner :=
  match p with
  | PathStopped => stopped
  | PathNoPort => server_no_port
  | PathNoEnd => no_end
  | PathEnd _ _ => parse_winner_from_log (final_files env) (my_log_of worker g)
  end.

Definition path_exits (p : GamePath) : Z * Z :=
  match p with
  | PathStopped => (130, 130)
  | PathNoPort | PathNoEnd => (124, 124)
  | PathEnd my_w monte_w => (wait_code my_w, wait_code monte_w)
  end.

(** The row of a game: the [dict] the runner returns. *)
Definition result_row (g worker port : Z) (w : Winner) (exits : Z * Z) : Row :=
  {| game := g; worker := worker; host := host_arg; port := port;
     connect_order := if g mod 2 =? 1 then my_first else monte_first;
     my_mode := my_mode_arg; my_seconds := my_seconds_arg;
     monte_seconds := monte_seconds_arg; server_timeout := server_timeout_arg;
     winner := w; my_exit := exits.1; monte_exit := exits.2 |}.

(** Every event of the list belongs to game [g]. *)
Definition events_of_game (g : Z) (evs : list Event) : Prop :=
  Forall (fun e => match e with
                   | Spawned _ g' _ _ | KillTree _ g' | Waited _ g'
                   | TeeStarted g' | TeeJoined g' => g' = g
                   | Slept _ => True
                   end) evs.

(** What each way out of a started game does to the processes. *)
Definition teardown_of_path (p : GamePath) (evs : list Event) : Prop :=
  match p with
  | PathStopped => False
  | PathNoPort =>
      spawns MyClient evs = 0%nat /\ spawns MonteClient evs = 0%nat /\
      kills Server evs = 1%nat /\
      kills MyClient evs = 0%nat /\ kills MonteClient evs = 0%nat
  | PathNoEnd =>
      spawns MyClient evs = 1%nat /\ spawns MonteClient evs = 1%nat /\
      kills Server evs = 1%nat /\
      kills MyClient evs = 1%nat /\ kills MonteClient evs = 1%nat
  | PathEnd my_w monte_w =>
      spawns MyClient evs = 1%nat /\ spawns MonteClient evs = 1%nat /\
      kills Server evs = 2%nat /\
      kills MyClient evs = match my_w with Some _ => 0 | None => 1 end%nat /\
      kills MonteClient evs = match monte_w with Some _ => 0 | None => 1 end%nat
  end.

(** Every game of the lane returns: its two waits do. *)
Definition games_complete (envs : Z -> GameEnv) (worker games : Z) : Prop :=
  forall g, 1 <= g <= games -> is_Some (path_of (envs g) worker g).

(** The rows of the future of a lane. *)
Definition lane_rows (fuel : nat) (lanes : Z -> LaneEnv) (games parallel port_base : Z)
    (lane : Z) : list Row :=
  match run_lane host_arg out_dir my_mode_arg my_seconds_arg monte_seconds_arg
          server_timeout_arg wall_timeout_s monitor stream_server_log
          fuel lanes games parallel port_base lane with
  | Some (rows, _) => rows
  | None => []
  end.

(** The events [b] of the game of row [r]: none when the runner found the
    flag set; otherwise they start the server, end with [kill_tree] on the
    server and the join of the tee thread, and start no other server. *)
Definition block_of_row (r : Row) (b : list Event) : Prop :=
  events_of_game (game r) b /\
  ((winner r = stopped /\ b = []) \/
   (exists mid,
      map act_of b = ASpawn Server :: mid ++ AKill Server :: tee_acts /\
      occurrences (ASpawn Server) mid = 0%nat)).

(** The columns of a row that the arguments of the lane settle. *)
Definition row_of_lane (worker port : Z) (r : Row) : Prop :=
  r = result_row (game r) worker port (winner r) (my_exit r, monte_exit r).

End Vocabulary.

(** ** More vocabulary: the banner, probes, lines, events of a game *)

(** What one poll of [wait_server_ready] finds: the log exists and its text
    contains both markers of the banner. *)
Definition saw_banner (path : string) (p : Poll) : bool :=
  match poll_files p !! path with
  | Some text => PyStr.contains "Othello Server" text && PyStr.contains "tcp port:" text
  | None => false
  end.

Definition banner_polled_in_vain (path : string) (deadline : Z) (before : list Poll) : Prop :=
  Forall (fun q => poll_clock q < deadline /\ saw_banner path q = false) before.

Definition probed_in_vain (host : string) (port : Z) (deadline : Z)
    (before : list Probe) : Prop :=
  Forall (fun q => probe_clock q < deadline /\ probe_accepts q host port = false) before.

(** A carriage return followed by a line feed. *)
Definition CRLF : string := String (ascii_of_N 13) LF.

(** The text made of the lines, each followed by the terminator [sep]. *)
Definition join_lines (sep : string) (lines : list string) : string :=
  fold_right (fun l text => l +:+ sep +:+ text) EmptyString lines.

(** The character [c] does not occur in [s]. *)
Fixpoint char_free (c : ascii) (s : string) : bool :=
  match s with
  | EmptyString => true
  | String a s' => negb (Ascii.eqb a c) && char_free c s'
  end.

(** The three kinds of log of a game. *)
Definition log_roles : list string := ["server"; "my"; "monte"].

(** The lines that are echoed: all of them when the flag is never set, the
    first [k] when it is set after [k] reads. *)
Definition echoed (stop : option nat) (stdout : list string) : list string :=
  match stop with
  | None => stdout
  | Some k => take k stdout
  end.

(** ** Concrete processes, games and runs *)

(** A server (child 1, pid 100) that leads its group, with a worker process
    of its own (pid 101) in the group, and a process of somebody else
    (pid 200) in another group. *)
Definition server_running : Sysstate :=
  {| procs :=
       {[ 100 := {| proc_child := 1; proc_pgid := 100; proc_state := Running;
                    proc_term_fatal := true; proc_status := 0 |};
          101 := {| proc_child := 0; proc_pgid := 100; proc_state := Running;
                    proc_term_fatal := false; proc_status := 0 |};
          200 := {| proc_child := 0; proc_pgid := 200; proc_state := Running;
                    proc_term_fatal := true; proc_status := 0 |} ]};
     returncodes := ∅ |}.

(** The same server after it has exited by itself, not yet reaped. *)
Definition server_exited : Sysstate :=
  {| procs :=
       {[ 100 := {| proc_child := 1; proc_pgid := 100; proc_state := Zombie;
                    proc_term_fatal := true; proc_status := 0 |} ]};
     returncodes := ∅ |}.

(** The child of the handle (child 1) has exited with status 0 and has been
    reaped; its pid 4242 now belongs to a process of somebody else. *)
Definition pid_reused : Sysstate :=
  {| procs :=
       {[ 4242 := {| proc_child := 2; proc_pgid := 4242; proc_state := Running;
                     proc_term_fatal := true; proc_status := 0 |} ]};
     returncodes := {[ 1%nat := 0 ]} |}.

(** The server never writes its banner; the clock reaches the deadline at
    the third poll. *)
Definition env_never_ready : GameEnv :=
  {| ready_start := 0;
     ready_polls :=
       [ {| poll_clock := 0; poll_files := ∅ |};
         {| poll_clock := 6000; poll_files := {[ "out/server_w0_g1.log" := "starting" ]} |};
         {| poll_clock := 12000; poll_files := {[ "out/server_w0_g1.log" := "starting" ]} |} ];
     end_start := 0; end_polls := [];
     my_wait := None; monte_wait := None;
     final_files := ∅ |}.

(** The server announces itself, the game is played and won, and both
    players exit once the server is gone. *)
Definition env_game_won : GameEnv :=
  {| ready_start := 0;
     ready_polls :=
       [ {| poll_clock := 100;
            poll_files := {[ "out/server_w0_g1.log" :=
                               "Othello Server" +:+ LF +:+ "tcp port: 25033" +:+ LF ]} |} ];
     end_start := 200;
     end_polls :=
       [ {| poll_clock := 300; poll_files := ∅ |};
         {| poll_clock := 400;
            poll_files := {[ "out/my_w0_g1.log" := "START" +:+ LF +:+ "END p1 win." +:+ LF ]} |} ];
     my_wait := Some 0; monte_wait := Some 0;
     final_files := {[ "out/my_w0_g1.log" := "START" +:+ LF +:+ "END p1 win." +:+ LF ]} |}.

(** A lane that has done nothing yet and will never see the flag set. *)
Definition fresh_world : World := {| stop_in := None; trace := [] |}.

(** A game whose server never announces itself: the clock is past the
    deadline at the first poll. *)
Definition env_timeout : GameEnv :=
  {| ready_start := 0;
     ready_polls := [ {| poll_clock := 12000; poll_files := ∅ |} ];
     end_start := 0; end_polls := [];
     my_wait := None; monte_wait := None;
     final_files := ∅ |}.

(** No lane is ever cancelled, and no server ever announces itself. *)
Definition lanes_uncancelled : Z -> LaneEnv :=
  fun _ => {| lane_stop_in := None; lane_games := fun _ => env_timeout |}.

(** The flag is set while game 1 is being played: the loop test and the
    runner's test for game 1 read it unset, the loop test for game 2 reads
    it set. *)
Definition lanes_cancelled_midway : Z -> LaneEnv :=
  fun _ => {| lane_stop_in := Some 2%nat; lane_games := fun _ => env_timeout |}.

(* ===================================================================== *)
(** * Strings                                                          *)
(* ===================================================================== *)

Section StringFacts.

Lemma ascii_eqb_true (a b : ascii) : Ascii.eqb a b = true <-> a = b.
Proof. apply Ascii.eqb_eq. Qed.

(** [startswith] is the prefix test. *)
Lemma startswith_spec (p s : string) :
  PyStr.startswith p s = true <-> exists tl, s = p +:+ tl.
Proof.
  revert s. induction p as [|a p IH]; intros s; simpl.
  - split; eauto.
  - destruct s as [|b s].
    + split; [discriminate | intros [tl Htl]; discriminate].
    + destruct (Ascii.eqb a b) eqn:E.
      * apply Ascii.eqb_eq in E. subst b. rewrite IH. split.
        -- intros [tl ->]. eauto.
        -- intros [tl Htl]. injection Htl as ->. eauto.
      * split; [discriminate |].
        intros [tl Htl]. injection Htl as -> _.
        rewrite Ascii.eqb_refl in E. discriminate.
Qed.

(** [contains] is the substring test of [in]. *)
Lemma contains_spec (p s : string) :
  PyStr.contains p s = true <-> exists hd tl, s = hd +:+ p +:+ tl.
Proof.
  induction s as [|c s IH].
  - simpl. rewrite orb_false_r, startswith_spec. split.
    + intros [tl ->]. exists EmptyString, tl. reflexivity.
    + intros [hd [tl Heq]]. destruct hd; [eauto | discriminate].
  - simpl. rewrite orb_true_iff, startswith_spec, IH. split.
    + intros [[tl ->] | [hd [tl ->]]].
      * exists EmptyString, tl. reflexivity.
      * exists (String c hd), tl. reflexivity.
    + intros [hd [tl Heq]]. destruct hd as [|c' hd]; simpl in Heq.
      * left. eauto.
      * right. injection Heq as -> ->. eauto.
Qed.

Lemma startswith_contains (p s : string) :
  PyStr.startswith p s = true -> PyStr.contains p s = true.
Proof. intros Hp. destruct s; simpl; rewrite Hp; reflexivity. Qed.

Lemma append_cons (c : ascii) (a b : string) :
  String c a +:+ b = String c (a +:+ b).
Proof. reflexivity. Qed.

Lemma append_assoc (a b c : string) : (a +:+ b) +:+ c = a +:+ (b +:+ c).
Proof.
  induction a as [|x a IH]; [reflexivity |].
  rewrite !append_cons, IH. reflexivity.
Qed.

End StringFacts.

Section SplitlinesFacts.

(** Induction two characters at a time, as [splitlines] recurses past a
    CR LF pair. *)
Lemma string_pair_ind (P : string -> Prop) :
  P EmptyString ->
  (forall c, P (String c EmptyString)) ->
  (forall c1 c2 s, P s -> P (String c2 s) -> P (String c1 (String c2 s))) ->
  forall s, P s.
Proof.
  intros H0 H1 H2 s.
  enough (P s /\ forall c, P (String c s)) by tauto.
  induction s as [|c s [IHa IHb]]; split; auto.
Qed.

Lemma splitlines_cons (c : ascii) (s : string) :
  PyStr.is_linebreak c = false ->
  PyStr.splitlines (String c s) =
    match PyStr.splitlines s with
    | [] => [String c EmptyString]
    | l :: ls => String c l :: ls
    end.
Proof. intros Hc. simpl. rewrite Hc. reflexivity. Qed.

Lemma splitlines_unfold2 (c1 c2 : ascii) (s : string) :
  PyStr.splitlines (String c1 (String c2 s)) =
    if PyStr.is_linebreak c1 then
      EmptyString ::
        (if PyStr.is_cr c1 then
           if PyStr.is_lf c2 then PyStr.splitlines s
           else PyStr.splitlines (String c2 s)
         else PyStr.splitlines (String c2 s))
    else match PyStr.splitlines (String c2 s) with
         | [] => [String c1 EmptyString]
         | l :: ls => String c1 l :: ls
         end.
Proof. reflexivity. Qed.

(** No line of [splitlines] contains a line boundary. *)
Lemma splitlines_no_break (text l : string) :
  In l (PyStr.splitlines text) -> has_linebreak l = false.
Proof.
  revert l. induction text as [| c | c1 c2 s IHs IHc] using string_pair_ind; intros l.
  - simpl. tauto.
  - simpl. destruct (PyStr.is_linebreak c) eqn:Hc.
    + destruct (PyStr.is_cr c); simpl; intros [<- | []]; reflexivity.
    + simpl. intros [<- | []]. simpl. rewrite Hc. reflexivity.
  - destruct (PyStr.is_linebreak c1) eqn:Hc1.
    + simpl PyStr.splitlines. rewrite Hc1. intros [<- | Hin]; [reflexivity |].
      destruct (PyStr.is_cr c1); [destruct (PyStr.is_lf c2) |]; auto.
    + rewrite splitlines_cons by assumption.
      destruct (PyStr.splitlines (String c2 s)) as [|l0 ls] eqn:E.
      * intros [<- | []]. simpl. rewrite Hc1. reflexivity.
      * intros [<- | Hin].
        -- simpl. rewrite Hc1. simpl. apply IHc. left. reflexivity.
        -- apply IHc. right. assumption.
Qed.

(** A non-empty text without a line boundary is its own single line. *)
Lemma splitlines_one_line (l : string) :
  has_linebreak l = false -> l <> EmptyString -> PyStr.splitlines l = [l].
Proof.
  induction l as [|c l IH]; intros Hb Hne; [congruence |].
  simpl in Hb. apply orb_false_iff in Hb as [Hc Hl].
  rewrite splitlines_cons by assumption.
  destruct l as [|c' l']; [reflexivity |].
  rewrite IH; [reflexivity | assumption | discriminate].
Qed.

Lemma lines_within_all (text : string) (ls : list string) (l : string) :
  lines_within text ls -> In l ls -> exists hd tl, text = hd +:+ l +:+ tl.
Proof.
  destruct ls as [|l0 rest]; simpl; [tauto |].
  intros [[tl Htl] Hrest] [<- | Hin]; [| auto].
  exists EmptyString, tl. exact Htl.
Qed.

Lemma lines_within_shift (pre text : string) (ls : list string) (l : string) :
  lines_within text ls -> In l ls -> exists hd tl, pre +:+ text = hd +:+ l +:+ tl.
Proof.
  intros Hw Hin. destruct (lines_within_all _ _ _ Hw Hin) as [hd [tl ->]].
  exists (pre +:+ hd), tl. rewrite append_assoc. reflexivity.
Qed.

Lemma splitlines_within (text : string) : lines_within text (PyStr.splitlines text).
Proof.
  induction text as [| c | c1 c2 s IHs IHc] using string_pair_ind.
  - exact I.
  - simpl. destruct (PyStr.is_linebreak c).
    + destruct (PyStr.is_cr c); simpl; (split; [eexists; reflexivity | tauto]).
    + simpl. split; [exists EmptyString; reflexivity | tauto].
  - rewrite splitlines_unfold2. destruct (PyStr.is_linebreak c1) eqn:Hc1.
    + split; [eexists; reflexivity |]. intros l Hin.
      destruct (PyStr.is_cr c1); [destruct (PyStr.is_lf c2) |].
      * apply (lines_within_shift (String c1 (String c2 EmptyString)) _ _ _ IHs Hin).
      * apply (lines_within_shift (String c1 EmptyString) _ _ _ IHc Hin).
      * apply (lines_within_shift (String c1 EmptyString) _ _ _ IHc Hin).
    + destruct (PyStr.splitlines (String c2 s)) as [|l0 ls] eqn:E.
      * split; [eexists; reflexivity | simpl; tauto].
      * destruct IHc as [[tl Htl] Hrest]. split.
        -- exists tl. rewrite Htl. reflexivity.
        -- intros l Hin. destruct (Hrest l Hin) as [hd [tl' Heq]].
           exists (String c1 hd), tl'. rewrite Heq. reflexivity.
Qed.

Lemma splitlines_substring (text l : string) :
  In l (PyStr.splitlines text) -> exists hd tl, text = hd +:+ l +:+ tl.
Proof. apply lines_within_all, splitlines_within. Qed.

(** A text with a line that begins with [p] contains [p]. *)
Lemma line_prefix_in_text (p text l : string) :
  In l (PyStr.splitlines text) ->
  PyStr.startswith p l = true -> PyStr.contains p text = true.
Proof.
  intros Hin Hp. apply contains_spec.
  destruct (splitlines_substring _ _ Hin) as [hd [tl ->]].
  apply startswith_spec in Hp as [tl' ->].
  exists hd, (tl' +:+ tl). rewrite append_assoc. reflexivity.
Qed.

End SplitlinesFacts.

(* ===================================================================== *)
(** * Outcome classification                                           *)
(* ===================================================================== *)

Section Classification.

(** The loop keeps the classification of the last line that begins with
    the marker, and its initial value when there is none. *)
Lemma scan_lines_last (ls : list string) (w0 : Winner) :
  fold_left scan_line ls w0 =
    match last (List.filter (PyStr.startswith END_MARKER) ls) with
    | Some l => classify_end_line l
    | None => w0
    end.
Proof.
  revert w0. induction ls as [|x ls IH]; intros w0; [reflexivity |].
  cbn [fold_left List.filter]. rewrite IH. unfold scan_line, END_MARKER.
  destruct (PyStr.startswith "END " x) eqn:Hx.
  - rewrite last_cons.
    destruct (last (List.filter (PyStr.startswith "END ") ls)); reflexivity.
  - reflexivity.
Qed.

Lemma parse_text_no_terminal (text : string) :
  terminal_lines text = [] -> parse_winner_from_text text = no_end.
Proof.
  unfold parse_winner_from_text, terminal_lines. intros H.
  rewrite scan_lines_last, H. reflexivity.
Qed.

Lemma parse_text_last_terminal (text : string) (earlier : list string) (l : string) :
  terminal_lines text = earlier ++ [l] ->
  parse_winner_from_text text = classify_end_line l.
Proof.
  unfold parse_winner_from_text, terminal_lines. intros H.
  rewrite scan_lines_last, H, last_snoc. reflexivity.
Qed.

Lemma terminal_line_props (text : string) (earlier : list string) (l : string) :
  terminal_lines text = earlier ++ [l] ->
  PyStr.startswith END_MARKER l = true /\ has_linebreak l = false.
Proof.
  intros H.
  assert (Hin : In l (terminal_lines text)).
  { rewrite H. apply in_or_app. right. left. reflexivity. }
  unfold terminal_lines in Hin. apply filter_In in Hin as [Hin Hp].
  split; [assumption | eapply splitlines_no_break; eassumption].
Qed.

(** A terminal line alone in a log is the one terminal line of that log. *)
Lemma terminal_lines_alone (l : string) :
  PyStr.startswith END_MARKER l = true -> has_linebreak l = false ->
  terminal_lines l = [l].
Proof.
  intros Hp Hb. unfold terminal_lines.
  rewrite splitlines_one_line; [| assumption |].
  - cbn [List.filter]. rewrite Hp. reflexivity.
  - intros ->. discriminate Hp.
Qed.

Lemma parse_log_text (fs : FS) (path text : string) :
  fs !! path = Some text ->
  parse_winner_from_log fs path = parse_winner_from_text text.
Proof. unfold parse_winner_from_log. intros ->. reflexivity. Qed.

(** The characters [str.lower()] maps to each letter of "draw". *)
Lemma lower_char_inv (c : ascii) (x : ascii) :
  In x ["d"; "r"; "a"; "w"]%char ->
  PyStr.lower_char c = x ->
  c = x \/ PyStr.lower_char x <> x \/ c = ascii_of_N (N_of_ascii x - 32).
Proof.
  intros Hx Hc.
  destruct c as [[] [] [] [] [] [] [] []];
    simpl in Hx; destruct Hx as [<- | [<- | [<- | [<- | []]]]];
    vm_compute in Hc; try discriminate Hc; auto.
Qed.

Lemma lower_draw_inv (d : string) :
  PyStr.lower d = "draw" ->
  exists c1 c2 c3 c4,
    d = String c1 (String c2 (String c3 (String c4 EmptyString))) /\
    (c1 = "d" \/ c1 = "D")%char /\ (c2 = "r" \/ c2 = "R")%char /\
    (c3 = "a" \/ c3 = "A")%char /\ (c4 = "w" \/ c4 = "W")%char.
Proof.
  destruct d as [|c1 [|c2 [|c3 [|c4 [|c5 d]]]]]; try discriminate.
  simpl. intros H. injection H as H1 H2 H3 H4.
  exists c1, c2, c3, c4. split; [reflexivity |].
  repeat split.
  - destruct (lower_char_inv c1 "d"%char) as [-> | [Hn | ->]];
      [simpl; tauto | assumption | auto | exfalso; apply Hn; reflexivity | auto].
  - destruct (lower_char_inv c2 "r"%char) as [-> | [Hn | ->]];
      [simpl; tauto | assumption | auto | exfalso; apply Hn; reflexivity | auto].
  - destruct (lower_char_inv c3 "a"%char) as [-> | [Hn | ->]];
      [simpl; tauto | assumption | auto | exfalso; apply Hn; reflexivity | auto].
  - destruct (lower_char_inv c4 "w"%char) as [-> | [Hn | ->]];
      [simpl; tauto | assumption | auto | exfalso; apply Hn; reflexivity | auto].
Qed.

(** "END draw", with "draw" in any letter case, classifies as a draw. *)
Lemma classify_end_draw (d : string) :
  PyStr.lower d = "draw" -> classify_end_line (END_MARKER +:+ d) = draw.
Proof.
  intros H. destruct (lower_draw_inv d H) as (c1 & c2 & c3 & c4 & -> & H1 & H2 & H3 & H4).
  destruct H1 as [-> | ->], H2 as [-> | ->], H3 as [-> | ->], H4 as [-> | ->];
    vm_compute; reflexivity.
Qed.

Lemma end_draw_is_line (d : string) :
  PyStr.lower d = "draw" ->
  PyStr.startswith END_MARKER (END_MARKER +:+ d) = true /\
  has_linebreak (END_MARKER +:+ d) = false.
Proof.
  intros H. destruct (lower_draw_inv d H) as (c1 & c2 & c3 & c4 & -> & H1 & H2 & H3 & H4).
  destruct H1 as [-> | ->], H2 as [-> | ->], H3 as [-> | ->], H4 as [-> | ->];
    vm_compute; split; reflexivity.
Qed.

End Classification.

Section ClassificationClaims.

(** C4.  [parse_winner_from_log] on a missing file gives [no_log]; on a
    log none of whose lines begins with "END " it gives [no_end]; when the
    last line beginning with "END " is "END p1 win." it gives [my], when
    it is "END p1 lose." it gives [monte], when it is "END " followed by
    "draw" in any letter case it gives [draw], and when that line matches
    none of the three rules it gives [unknown].  The rules are tried in
    the order win, lose, draw: a line with " win." is [my] whatever else
    it holds, a line with " lose." and no " win." is [monte], and the draw
    rule only applies when the other two do not. *)
Theorem parse_winner_from_log_cases (fs : FS) (path : string) :
  (fs !! path = None -> parse_winner_from_log fs path = no_log) /\
  (forall text, fs !! path = Some text -> terminal_lines text = [] ->
     parse_winner_from_log fs path = no_end) /\
  (forall text earlier l,
     fs !! path = Some text -> terminal_lines text = earlier ++ [l] ->
     (l = "END p1 win." -> parse_winner_from_log fs path = my) /\
     (l = "END p1 lose." -> parse_winner_from_log fs path = monte) /\
     (forall d, PyStr.lower d = "draw" -> l = END_MARKER +:+ d ->
        parse_winner_from_log fs path = draw) /\
     (PyStr.contains " win." l = false -> PyStr.contains " lose." l = false ->
      PyStr.contains "draw" (PyStr.lower l) = false ->
        parse_winner_from_log fs path = unknown) /\
     (PyStr.contains " win." l = true -> parse_winner_from_log fs path = my) /\
     (PyStr.contains " win." l = false -> PyStr.contains " lose." l = true ->
        parse_winner_from_log fs path = monte) /\
     (PyStr.contains " win." l = false -> PyStr.contains " lose." l = false ->
      PyStr.contains "draw" (PyStr.lower l) = true ->
        parse_winner_from_log fs path = draw)).
Proof.
  split; [| split].
  - unfold parse_winner_from_log. intros ->. reflexivity.
  - intros text Hfs Hnone.
    rewrite (parse_log_text _ _ _ Hfs). apply parse_text_no_terminal, Hnone.
  - intros text earlier l Hfs Hlast.
    rewrite (parse_log_text _ _ _ Hfs), (parse_text_last_terminal _ _ _ Hlast).
    repeat split.
    + intros ->. reflexivity.
    + intros ->. reflexivity.
    + intros d Hd ->. apply classify_end_draw, Hd.
    + unfold classify_end_line. intros -> -> ->. reflexivity.
    + unfold classify_end_line. intros ->. reflexivity.
    + unfold classify_end_line. intros -> ->. reflexivity.
    + unfold classify_end_line. intros -> -> ->. reflexivity.
Qed.

Lemma parse_winner_from_log_cases_witness :
  parse_winner_from_log ∅ "my_w0_g1.log" = no_log /\
  parse_winner_from_log {[ "my_w0_g1.log" := "MOVE 3 4" +:+ LF ]} "my_w0_g1.log" = no_end /\
  parse_winner_from_log
    {[ "my_w0_g1.log" := "END of opening" +:+ LF +:+ "END p1 win." +:+ LF ]}
    "my_w0_g1.log" = my /\
  parse_winner_from_log
    {[ "my_w0_g1.log" := "START" +:+ LF +:+ "END p1 lose." +:+ LF ]} "my_w0_g1.log" = monte /\
  parse_winner_from_log
    {[ "my_w0_g1.log" := "END p1 win." +:+ LF +:+ "END DrAw" ]} "my_w0_g1.log" = draw /\
  parse_winner_from_log
    {[ "my_w0_g1.log" := "END p1 win." +:+ LF +:+ "END abort" +:+ LF ]}
    "my_w0_g1.log" = unknown /\
  parse_winner_from_log
    {[ "my_w0_g1.log" := "END draw? no, p1 lose. no, p1 win." ]} "my_w0_g1.log" = my /\
  parse_winner_from_log
    {[ "my_w0_g1.log" := "END draw? no, p1 lose." ]} "my_w0_g1.log" = monte /\
  parse_winner_from_log
    {[ "my_w0_g1.log" := "END it is a DRAW" ]} "my_w0_g1.log" = draw.
Proof.
  split.
  { apply (parse_winner_from_log_cases ∅ "my_w0_g1.log"). reflexivity. }
  split.
  { apply (parse_winner_from_log_cases _ "my_w0_g1.log") with (text := "MOVE 3 4" +:+ LF);
      reflexivity. }
  split.
  { apply (parse_winner_from_log_cases _ "my_w0_g1.log")
      with (text := "END of opening" +:+ LF +:+ "END p1 win." +:+ LF)
           (earlier := ["END of opening"]) (l := "END p1 win."); reflexivity. }
  split.
  { apply (parse_winner_from_log_cases _ "my_w0_g1.log")
      with (text := "START" +:+ LF +:+ "END p1 lose." +:+ LF)
           (earlier := []) (l := "END p1 lose."); reflexivity. }
  split.
  { apply (parse_winner_from_log_cases _ "my_w0_g1.log")
      with (text := "END p1 win." +:+ LF +:+ "END DrAw")
           (earlier := ["END p1 win."]) (l := "END DrAw") (d := "DrAw"); reflexivity. }
  split.
  { apply (parse_winner_from_log_cases _ "my_w0_g1.log")
      with (text := "END p1 win." +:+ LF +:+ "END abort" +:+ LF)
           (earlier := ["END p1 win."]) (l := "END abort"); reflexivity. }
  split.
  { apply (parse_winner_from_log_cases _ "my_w0_g1.log")
      with (text := "END draw? no, p1 lose. no, p1 win.")
           (earlier := []) (l := "END draw? no, p1 lose. no, p1 win."); reflexivity. }
  split.
  { apply (parse_winner_from_log_cases _ "my_w0_g1.log")
      with (text := "END draw? no, p1 lose.")
           (earlier := []) (l := "END draw? no, p1 lose."); reflexivity. }
  { apply (parse_winner_from_log_cases _ "my_w0_g1.log")
      with (text := "END it is a DRAW")
           (earlier := []) (l := "END it is a DRAW"); reflexivity. }
Defined.

(** C6.  When a log has several lines beginning with "END ", the result of
    [parse_winner_from_log] is that of a log holding only the last of
    them; the earlier ones have no effect: two logs with the same last
    such line classify alike. *)
Theorem last_terminal_line_decides
    (fs : FS) (path text : string) (earlier : list string) (l : string) :
  fs !! path = Some text ->
  terminal_lines text = earlier ++ [l] ->
  parse_winner_from_log fs path = parse_winner_from_log {[ path := l ]} path /\
  (forall (fs' : FS) text' earlier',
     fs' !! path = Some text' -> terminal_lines text' = earlier' ++ [l] ->
     parse_winner_from_log fs' path = parse_winner_from_log fs path).
Proof.
  intros Hfs Hlast.
  destruct (terminal_line_props _ _ _ Hlast) as [Hp Hb].
  rewrite (parse_log_text _ _ _ Hfs), (parse_text_last_terminal _ _ _ Hlast).
  split.
  - rewrite (parse_log_text _ path l) by apply lookup_singleton_eq.
    symmetry. apply (parse_text_last_terminal l []).
    apply terminal_lines_alone; assumption.
  - intros fs' text' earlier' Hfs' Hlast'.
    rewrite (parse_log_text _ _ _ Hfs'). apply (parse_text_last_terminal _ _ _ Hlast').
Qed.

Lemma last_terminal_line_decides_witness :
  parse_winner_from_log
    {[ "my_w1_g2.log" := "END p1 win." +:+ LF +:+ "noise" +:+ LF +:+ "END p1 lose." +:+ LF ]}
    "my_w1_g2.log"
  = parse_winner_from_log {[ "my_w1_g2.log" := "END p1 lose." ]} "my_w1_g2.log".
Proof.
  apply (last_terminal_line_decides _ "my_w1_g2.log"
           ("END p1 win." +:+ LF +:+ "noise" +:+ LF +:+ "END p1 lose." +:+ LF)
           ["END p1 win."] "END p1 lose."); reflexivity.
Defined.

(** C10.  On the last line beginning with "END ", the win rule fires
    exactly when the line holds the token " win." (with its space and
    period, in lower case), the lose rule exactly when it holds " lose."
    and not " win."; the draw rule looks for "draw" in the lower-cased
    line, anywhere in it.  A line with neither token and without "draw",
    such as "END p1 wins" or "END WIN.", is [unknown], not [my]. *)
Theorem win_lose_tokens_are_exact
    (fs : FS) (path text : string) (earlier : list string) (l : string) :
  fs !! path = Some text ->
  terminal_lines text = earlier ++ [l] ->
  (parse_winner_from_log fs path = my <-> exists hd tl, l = hd +:+ " win." +:+ tl) /\
  (parse_winner_from_log fs path = monte <->
     PyStr.contains " win." l = false /\ exists hd tl, l = hd +:+ " lose." +:+ tl) /\
  (parse_winner_from_log fs path = draw <->
     PyStr.contains " win." l = false /\ PyStr.contains " lose." l = false /\
     exists hd tl, PyStr.lower l = hd +:+ "draw" +:+ tl) /\
  (parse_winner_from_log fs path = unknown <->
     PyStr.contains " win." l = false /\ PyStr.contains " lose." l = false /\
     PyStr.contains "draw" (PyStr.lower l) = false) /\
  (l = "END p1 wins" \/ l = "END WIN." -> parse_winner_from_log fs path = unknown).
Proof.
  intros Hfs Hlast.
  rewrite (parse_log_text _ _ _ Hfs), (parse_text_last_terminal _ _ _ Hlast).
  rewrite <- !contains_spec. unfold classify_end_line.
  repeat split.
  - destruct (PyStr.contains " win." l); [reflexivity |].
    destruct (PyStr.contains " lose." l); [discriminate |].
    destruct (PyStr.contains "draw" (PyStr.lower l)); discriminate.
  - intros ->. reflexivity.
  - destruct (PyStr.contains " win." l); [discriminate | reflexivity].
  - destruct (PyStr.contains " win." l); [discriminate |].
    destruct (PyStr.contains " lose." l); [reflexivity |].
    destruct (PyStr.contains "draw" (PyStr.lower l)); discriminate.
  - intros [-> ->]. reflexivity.
  - destruct (PyStr.contains " win." l); [discriminate | reflexivity].
  - destruct (PyStr.contains " win." l); [discriminate |].
    destruct (PyStr.contains " lose." l); [discriminate | reflexivity].
  - destruct (PyStr.contains " win." l); [discriminate |].
    destruct (PyStr.contains " lose." l); [discriminate |].
    destruct (PyStr.contains "draw" (PyStr.lower l)); [reflexivity | discriminate].
  - intros (-> & -> & ->). reflexivity.
  - destruct (PyStr.contains " win." l); [discriminate | reflexivity].
  - destruct (PyStr.contains " win." l); [discriminate |].
    destruct (PyStr.contains " lose." l); [discriminate | reflexivity].
  - destruct (PyStr.contains " win." l); [discriminate |].
    destruct (PyStr.contains " lose." l); [discriminate |].
    destruct (PyStr.contains "draw" (PyStr.lower l)); [discriminate | reflexivity].
  - intros (-> & -> & ->). reflexivity.
  - intros [-> | ->]; reflexivity.
Qed.

Lemma win_lose_tokens_are_exact_witness :
  parse_winner_from_log
    {[ "my_w0_g3.log" := "END p1 win." +:+ LF +:+ "END p1 wins" +:+ LF ]} "my_w0_g3.log"
  = unknown /\
  parse_winner_from_log {[ "my_w0_g3.log" := "END WIN." +:+ LF ]} "my_w0_g3.log" = unknown.
Proof.
  split.
  - apply (win_lose_tokens_are_exact _ "my_w0_g3.log"
             ("END p1 win." +:+ LF +:+ "END p1 wins" +:+ LF) ["END p1 win."] "END p1 wins");
      [reflexivity | reflexivity | left; reflexivity].
  - apply (win_lose_tokens_are_exact _ "my_w0_g3.log"
             ("END WIN." +:+ LF) [] "END WIN.");
      [reflexivity | reflexivity | right; reflexivity].
Defined.

End ClassificationClaims.

(* ===================================================================== *)
(** * Log polling                                                      *)
(* ===================================================================== *)

Section Polling.

Lemma wait_end_loop_step (path : string) (deadline : Z) (p : Poll) (rest : list Poll) :
  wait_end_in_log_loop path deadline (p :: rest) =
    if poll_clock p <? deadline then
      if saw_end path p then Some true
      else wait_end_in_log_loop path deadline rest
    else Some false.
Proof.
  unfold saw_end. simpl.
  destruct (poll_clock p <? deadline); [| reflexivity].
  destruct (poll_files p !! path) as [text|]; reflexivity.
Qed.

Lemma wait_end_loop_skip (path : string) (deadline : Z) (before rest : list Poll) :
  polled_in_vain path deadline before ->
  wait_end_in_log_loop path deadline (before ++ rest) =
    wait_end_in_log_loop path deadline rest.
Proof.
  induction 1 as [|q before [Hq Hs] _ IH]; [reflexivity |].
  rewrite <- app_comm_cons, wait_end_loop_step, Hs.
  apply Z.ltb_lt in Hq. rewrite Hq. exact IH.
Qed.

(** Every result of the loop comes from one deciding poll. *)
Lemma wait_end_loop_inv (path : string) (deadline : Z) (polls : list Poll) (b : bool) :
  wait_end_in_log_loop path deadline polls = Some b ->
  exists before p rest,
    polls = before ++ p :: rest /\ polled_in_vain path deadline before /\
    (if b then poll_clock p < deadline /\ saw_end path p = true
     else deadline <= poll_clock p).
Proof.
  induction polls as [|q polls IH]; [discriminate |].
  rewrite wait_end_loop_step.
  destruct (poll_clock q <? deadline) eqn:Hq.
  - apply Z.ltb_lt in Hq. destruct (saw_end path q) eqn:Hs.
    + intros [= <-]. exists [], q, polls.
      split; [reflexivity |]. split; [constructor |]. split; assumption.
    + intros Hrest. destruct (IH Hrest) as (before & p & rest & -> & Hv & Hp).
      exists (q :: before), p, rest.
      split; [reflexivity |]. split; [| assumption].
      constructor; [split |]; assumption.
  - apply Z.ltb_ge in Hq. intros [= <-].
    exists [], q, polls.
    split; [reflexivity |]. split; [constructor | assumption].
Qed.

(** The loop ends once the clock has reached the deadline. *)
Lemma wait_end_loop_total (path : string) (deadline : Z) (polls : list Poll) :
  Exists (fun p => deadline <= poll_clock p) polls ->
  is_Some (wait_end_in_log_loop path deadline polls).
Proof.
  induction 1 as [p rest Hp | p rest _ IH]; rewrite wait_end_loop_step.
  - apply Z.ltb_ge in Hp. rewrite Hp. eauto.
  - destruct (poll_clock p <? deadline); [| eauto].
    destruct (saw_end path p); eauto.
Qed.

(** C5, as the code has it.  [wait_end_in_log] returns [True] exactly when
    some poll made before the deadline, every earlier poll having been made
    before the deadline too, finds the log file present with "END "
    somewhere in its text; it returns [False] exactly when the clock
    reaches the deadline after polls that all found nothing; a poll that
    does not find the file finds nothing and the loop goes on; and the loop
    returns once the clock has reached the deadline.  A log with a line that
    begins with "END " is found. *)
Theorem wait_end_in_log_spec (path : string) (timeout_ms start : Z) (polls : list Poll) :
  (wait_end_in_log path timeout_ms start polls = Some true <->
     exists before p rest,
       polls = before ++ p :: rest /\
       polled_in_vain path (start + timeout_ms) before /\
       poll_clock p < start + timeout_ms /\ saw_end path p = true) /\
  (wait_end_in_log path timeout_ms start polls = Some false <->
     exists before p rest,
       polls = before ++ p :: rest /\
       polled_in_vain path (start + timeout_ms) before /\
       start + timeout_ms <= poll_clock p) /\
  (Exists (fun p => start + timeout_ms <= poll_clock p) polls ->
     is_Some (wait_end_in_log path timeout_ms start polls)) /\
  (forall p, poll_files p !! path = None -> saw_end path p = false) /\
  (forall p text, poll_files p !! path = Some text ->
     terminal_lines text <> [] -> saw_end path p = true).
Proof.
  unfold wait_end_in_log. repeat split.
  - intros Hr. destruct (wait_end_loop_inv _ _ _ _ Hr) as (before & p & rest & Hp & Hv & Hb).
    exists before, p, rest. tauto.
  - intros (before & p & rest & -> & Hv & Hc & Hs).
    rewrite wait_end_loop_skip by assumption.
    rewrite wait_end_loop_step, Hs. apply Z.ltb_lt in Hc. rewrite Hc. reflexivity.
  - intros Hr. destruct (wait_end_loop_inv _ _ _ _ Hr) as (before & p & rest & Hp & Hv & Hb).
    exists before, p, rest. tauto.
  - intros (before & p & rest & -> & Hv & Hc).
    rewrite wait_end_loop_skip by assumption.
    rewrite wait_end_loop_step. apply Z.ltb_ge in Hc. rewrite Hc. reflexivity.
  - apply wait_end_loop_total.
  - intros p Hp. unfold saw_end. rewrite Hp. reflexivity.
  - intros p text Hp Hne. unfold saw_end. rewrite Hp.
    destruct (terminal_lines text) as [|l ls] eqn:E; [congruence |].
    assert (Hin : In l (terminal_lines text)) by (rewrite E; left; reflexivity).
    unfold terminal_lines in Hin. apply filter_In in Hin as [Hin Hl].
    eapply line_prefix_in_text; eassumption.
Qed.

(** The server log is missing at the first poll, holds a terminal line at
    the second: the wait returns [True] at the second poll. *)
Lemma wait_end_in_log_spec_witness :
  wait_end_in_log "my_w0_g1.log" 1000 5000
    [ {| poll_clock := 5000; poll_files := ∅ |};
      {| poll_clock := 5100; poll_files := {[ "my_w0_g1.log" := "MOVE" +:+ LF +:+ "END p1 win." ]} |};
      {| poll_clock := 5200; poll_files := ∅ |} ] = Some true /\
  wait_end_in_log "my_w0_g1.log" 1000 5000
    [ {| poll_clock := 5000; poll_files := ∅ |};
      {| poll_clock := 6000; poll_files := {[ "my_w0_g1.log" := "END p1 win." ]} |} ] = Some false.
Proof.
  split.
  - apply (wait_end_in_log_spec "my_w0_g1.log" 1000 5000).
    exists [ {| poll_clock := 5000; poll_files := ∅ |} ],
      {| poll_clock := 5100;
         poll_files := {[ "my_w0_g1.log" := "MOVE" +:+ LF +:+ "END p1 win." ]} |},
      [ {| poll_clock := 5200; poll_files := ∅ |} ].
    split; [reflexivity |]. split; [| split; [simpl; lia | reflexivity]].
    constructor; [| constructor]. split; [simpl; lia | reflexivity].
  - apply (wait_end_in_log_spec "my_w0_g1.log" 1000 5000).
    exists [ {| poll_clock := 5000; poll_files := ∅ |} ],
      {| poll_clock := 6000; poll_files := {[ "my_w0_g1.log" := "END p1 win." ]} |}, [].
    split; [reflexivity |]. split; [| simpl; lia].
    constructor; [| constructor]. split; [simpl; lia | reflexivity].
Defined.

(** C5, as stated, fails: the log below has no line that begins with
    "END " (its only line is "SEND 1"), yet the wait returns [True]. *)
Lemma wait_end_in_log_mid_line :
  terminal_lines "SEND 1" = [] /\
  wait_end_in_log "my_w0_g1.log" 1000 0
    [ {| poll_clock := 0; poll_files := {[ "my_w0_g1.log" := "SEND 1" ]} |} ] = Some true.
Proof. split; reflexivity. Qed.

End Polling.

(* ===================================================================== *)
(** * Process teardown                                                 *)
(* ===================================================================== *)

Section Teardown.

(** [kill_tree] returns normally over any system: whatever a process call
    raises is caught. *)
Lemma kill_tree_returns {St : Type} `{ProcessAPI St}
    (proc : option Popen) (grace_ms : Z) (st : St) :
  exists st', kill_tree proc grace_ms st = (Returned tt, st').
Proof.
  destruct proc as [proc|]; [| eexists; reflexivity].
  unfold kill_tree, _kill, sys_bind, try_except, sys_ret.
  destruct (os_getpgid (pid proc) st) as [[g|e] st1].
  - destruct (os_killpg g SIGTERM st1) as [[[]|e1] st2];
      destruct (os_killpg g SIGKILL (time_sleep grace_ms st2)) as [[[]|e2] st3];
      eexists; reflexivity.
  - destruct (popen_send_signal proc SIGTERM st1) as [[[]|e1] st2];
      destruct (popen_send_signal proc SIGKILL (time_sleep grace_ms st2)) as [[[]|e2] st3];
      eexists; reflexivity.
Qed.

Lemma deliver_pgid (sig : Signal) (p : Proc) : proc_pgid (deliver sig p) = proc_pgid p.
Proof.
  unfold deliver. destruct (proc_state p), sig; try reflexivity.
  destruct (proc_term_fatal p); reflexivity.
Qed.

Lemma deliver_group_pgid (g : Z) (sig : Signal) (p : Proc) :
  proc_pgid (deliver_group g sig p) = proc_pgid p.
Proof. unfold deliver_group. case_decide; [apply deliver_pgid | reflexivity]. Qed.

Lemma deliver_zombie (sig : Signal) (p : Proc) :
  proc_state p = Zombie -> deliver sig p = p.
Proof. unfold deliver. intros ->. reflexivity. Qed.

Lemma deliver_kill_state (p : Proc) : proc_state (deliver SIGKILL p) = Zombie.
Proof. unfold deliver. destruct (proc_state p) eqn:E; [reflexivity | exact E]. Qed.

(** Once SIGKILL went to the group, further signals to it change nothing. *)
Lemma deliver_group_settled (g : Z) (sig : Signal) (p : Proc) :
  deliver_group g sig (deliver_group g SIGKILL p) = deliver_group g SIGKILL p.
Proof.
  unfold deliver_group at 2 3. case_decide as Hg.
  - unfold deliver_group. rewrite deliver_pgid. case_decide; [| reflexivity].
    apply deliver_zombie, deliver_kill_state.
  - unfold deliver_group. case_decide; [contradiction | reflexivity].
Qed.

Lemma group_nonempty_member (g : Z) (tbl : gmap Z Proc) (k : Z) (p : Proc) :
  tbl !! k = Some p -> proc_pgid p = g -> group_nonempty g tbl = true.
Proof.
  intros Hk Hg. unfold group_nonempty. apply existsb_exists.
  exists (k, p). split.
  - apply list_elem_of_In, elem_of_map_to_list. exact Hk.
  - apply bool_decide_eq_true. exact Hg.
Qed.

(** [kill_tree] when some process holds the pid: both signals go to its
    group. *)
Lemma after_kill_tree_held (h : Popen) (grace_ms : Z) (st : Sysstate) (pr : Proc) :
  procs st !! pid h = Some pr ->
  after_kill_tree h grace_ms st =
    {| procs := deliver_group (proc_pgid pr) SIGKILL <$>
                  (deliver_group (proc_pgid pr) SIGTERM <$> procs st);
       returncodes := returncodes st |}.
Proof.
  intros Hpr. unfold after_kill_tree, kill_tree, _kill, sys_bind, try_except, sys_ret.
  cbn [os_getpgid os_killpg time_sleep table_api].
  unfold table_getpgid. rewrite Hpr.
  unfold table_killpg at 1.
  rewrite (group_nonempty_member _ _ _ _ Hpr eq_refl).
  unfold table_killpg. cbn [procs returncodes].
  rewrite (group_nonempty_member (proc_pgid pr)
             (deliver_group (proc_pgid pr) SIGTERM <$> procs st) (pid h)
             (deliver_group (proc_pgid pr) SIGTERM pr)).
  - reflexivity.
  - rewrite lookup_fmap, Hpr. reflexivity.
  - apply deliver_group_pgid.
Qed.

(** [kill_tree] when no process holds the pid: nothing is signalled; the
    handle learns that its child is gone. *)
Lemma after_kill_tree_free (h : Popen) (grace_ms : Z) (st : Sysstate) :
  procs st !! pid h = None ->
  after_kill_tree h grace_ms st =
    match returncodes st !! popen_child h with
    | Some _ => st
    | None => {| procs := procs st;
                 returncodes := <[popen_child h := 0]> (returncodes st) |}
    end.
Proof.
  intros Hpr. unfold after_kill_tree, kill_tree, _kill, sys_bind, try_except, sys_ret.
  cbn [os_getpgid popen_send_signal time_sleep table_api].
  unfold table_getpgid. rewrite Hpr.
  unfold table_send_signal.
  destruct (returncodes st !! popen_child h) as [rc|] eqn:Hrc.
  - rewrite Hrc. reflexivity.
  - rewrite Hpr. cbn [procs returncodes snd]. rewrite lookup_insert_eq. reflexivity.
Qed.

Lemma fmap_settled (g : Z) (sig : Signal) (tbl : gmap Z Proc) :
  deliver_group g sig <$> (deliver_group g SIGKILL <$> tbl) = deliver_group g SIGKILL <$> tbl.
Proof.
  rewrite <- map_fmap_compose. apply map_fmap_ext.
  intros k p _. apply deliver_group_settled.
Qed.

Lemma kill_tree_twice (h : Popen) (grace_ms : Z) (st : Sysstate) :
  after_kill_tree h grace_ms (after_kill_tree h grace_ms st) = after_kill_tree h grace_ms st.
Proof.
  destruct (procs st !! pid h) as [pr|] eqn:Hpr.
  - rewrite (after_kill_tree_held _ _ _ _ Hpr).
    set (g := proc_pgid pr).
    rewrite (after_kill_tree_held h grace_ms _
               (deliver_group g SIGKILL (deliver_group g SIGTERM pr))).
    + cbn [procs returncodes]. rewrite !deliver_group_pgid. fold g.
      rewrite !fmap_settled. reflexivity.
    + cbn [procs]. rewrite !lookup_fmap, Hpr. reflexivity.
  - rewrite (after_kill_tree_free _ _ _ Hpr).
    destruct (returncodes st !! popen_child h) as [rc|] eqn:Hrc.
    + rewrite (after_kill_tree_free _ _ _ Hpr), Hrc. reflexivity.
    + rewrite after_kill_tree_free by exact Hpr.
      cbn [returncodes]. rewrite lookup_insert_eq. reflexivity.
Qed.

(** Processes outside the signalled group are left as they are. *)
Lemma kill_tree_outside (h : Popen) (grace_ms : Z) (st : Sysstate) (q : Z) (pq : Proc) :
  procs st !! q = Some pq ->
  target_group h st <> Some (proc_pgid pq) ->
  procs (after_kill_tree h grace_ms st) !! q = Some pq.
Proof.
  intros Hq Hout. unfold target_group in Hout.
  destruct (procs st !! pid h) as [pr|] eqn:Hpr.
  - rewrite (after_kill_tree_held _ _ _ _ Hpr). cbn [procs].
    rewrite !lookup_fmap, Hq. cbn.
    assert (Hne : proc_pgid pq <> proc_pgid pr) by (intros E; apply Hout; rewrite E; reflexivity).
    unfold deliver_group at 2. case_decide; [contradiction |].
    unfold deliver_group. case_decide; [contradiction | reflexivity].
  - rewrite (after_kill_tree_free _ _ _ Hpr).
    destruct (returncodes st !! popen_child h); exact Hq.
Qed.

(** When every member of the signalled group has already exited, no process
    changes. *)
Lemma kill_tree_after_exit (h : Popen) (grace_ms : Z) (st : Sysstate) :
  (forall q pq, procs st !! q = Some pq ->
     target_group h st = Some (proc_pgid pq) -> proc_state pq = Zombie) ->
  procs (after_kill_tree h grace_ms st) = procs st.
Proof.
  intros Hz. unfold target_group in Hz.
  destruct (procs st !! pid h) as [pr|] eqn:Hpr.
  - rewrite (after_kill_tree_held _ _ _ _ Hpr). cbn [procs].
    rewrite <- map_fmap_compose.
    rewrite <- (map_fmap_id (procs st)) at 2.
    apply map_fmap_ext. intros q pq Hq. cbn.
    assert (Hsame : forall sig, deliver_group (proc_pgid pr) sig pq = pq).
    { intros sig. unfold deliver_group. case_decide as Hg; [| reflexivity].
      apply deliver_zombie, (Hz q); [exact Hq | rewrite Hg; reflexivity]. }
    rewrite !Hsame. reflexivity.
  - rewrite (after_kill_tree_free _ _ _ Hpr).
    destruct (returncodes st !! popen_child h); reflexivity.
Qed.

(** C9, as the code has it.  [kill_tree] never raises, over any system and
    for every handle (or none).  On the process table: calling it a second
    time leaves the state the first call left; when every member of the
    group it signals has already exited it changes no process; and it
    changes no process outside the group that [os.getpgid] reports for the
    pid of the handle, which is the group of the handle's own child as long
    as that child still holds the pid; when no process holds the pid it
    signals nothing. *)
Theorem kill_tree_repeatable (h : Popen) (grace_ms : Z) (st : Sysstate) :
  (forall (St : Type) (api : ProcessAPI St) (proc : option Popen) (s : St),
     exists s', kill_tree proc grace_ms s = (Returned tt, s')) /\
  kill_tree None grace_ms st = (Returned tt, st) /\
  after_kill_tree h grace_ms (after_kill_tree h grace_ms st) = after_kill_tree h grace_ms st /\
  ((forall q pq, procs st !! q = Some pq ->
      target_group h st = Some (proc_pgid pq) -> proc_state pq = Zombie) ->
   procs (after_kill_tree h grace_ms st) = procs st) /\
  (forall q pq, procs st !! q = Some pq ->
     target_group h st <> Some (proc_pgid pq) ->
     procs (after_kill_tree h grace_ms st) !! q = Some pq) /\
  (forall pr, procs st !! pid h = Some pr -> proc_child pr = popen_child h ->
     target_group h st = Some (proc_pgid pr)) /\
  (procs st !! pid h = None -> procs (after_kill_tree h grace_ms st) = procs st).
Proof.
  split; [| split; [| split; [| split; [| split; [| split]]]]].
  - intros St api proc s. apply kill_tree_returns.
  - reflexivity.
  - apply kill_tree_twice.
  - apply kill_tree_after_exit.
  - intros q pq. apply kill_tree_outside.
  - intros pr Hpr _. unfold target_group. rewrite Hpr. reflexivity.
  - intros Hfree. rewrite (after_kill_tree_free _ _ _ Hfree).
    destruct (returncodes st !! popen_child h); reflexivity.
Qed.

Lemma kill_tree_repeatable_witness :
  procs (after_kill_tree {| popen_child := 1; pid := 100 |} 300 server_running) !! 200
    = Some {| proc_child := 0; proc_pgid := 200; proc_state := Running;
              proc_term_fatal := true; proc_status := 0 |} /\
  procs (after_kill_tree {| popen_child := 1; pid := 100 |} 300 server_exited)
    = procs server_exited.
Proof.
  split.
  - destruct (kill_tree_repeatable {| popen_child := 1; pid := 100 |} 300 server_running)
      as (_ & _ & _ & _ & Houtside & _).
    apply Houtside; [reflexivity | vm_compute; discriminate].
  - destruct (kill_tree_repeatable {| popen_child := 1; pid := 100 |} 300 server_exited)
      as (_ & _ & _ & Hexited & _).
    apply Hexited.
    intros q pq Hq _. unfold server_exited in Hq. cbn [procs] in Hq.
    apply lookup_singleton_Some in Hq as [_ <-]. reflexivity.
Defined.

(** C9, as stated, fails: on a handle whose process has exited and whose
    pid has been taken by another process, [kill_tree] signals that
    process, which dies of the SIGTERM. *)
Lemma kill_tree_hits_pid_reuser :
  returncodes pid_reused !! 1%nat = Some 0 /\
  procs pid_reused !! 4242
    = Some {| proc_child := 2; proc_pgid := 4242; proc_state := Running;
              proc_term_fatal := true; proc_status := 0 |} /\
  procs (after_kill_tree {| popen_child := 1; pid := 4242 |} 300 pid_reused) !! 4242
    = Some {| proc_child := 2; proc_pgid := 4242; proc_state := Zombie;
              proc_term_fatal := true; proc_status := -15 |}.
Proof. repeat split; vm_compute; reflexivity. Qed.

End Teardown.

(* ===================================================================== *)
(** * The match runner                                                 *)
(* ===================================================================== *)

Section RunnerFacts.

Variables (host_arg : string) (out_dir : string).
Variables (my_mode_arg : string) (my_seconds_arg : string) (monte_seconds_arg : Z).
Variables (server_timeout_arg : Z) (wall_timeout_s : Z).
Variables (monitor : bool) (stream_server_log : bool).

Local Abbreviation run_game :=
  (run_one_game host_arg out_dir my_mode_arg my_seconds_arg monte_seconds_arg
     server_timeout_arg wall_timeout_s monitor stream_server_log).

Local Abbreviation loop_from :=
  (worker_loop_from host_arg out_dir my_mode_arg my_seconds_arg monte_seconds_arg
     server_timeout_arg wall_timeout_s monitor stream_server_log).

Local Abbreviation lane_loop :=
  (worker_loop host_arg out_dir my_mode_arg my_seconds_arg monte_seconds_arg
     server_timeout_arg wall_timeout_s monitor stream_server_log).

Local Abbreviation lane_run :=
  (run_lane host_arg out_dir my_mode_arg my_seconds_arg monte_seconds_arg
     server_timeout_arg wall_timeout_s monitor stream_server_log).

Local Abbreviation collect_rows :=
  (collect host_arg out_dir my_mode_arg my_seconds_arg monte_seconds_arg
     server_timeout_arg wall_timeout_s monitor stream_server_log).

Local Abbreviation merged :=
  (main_results host_arg out_dir my_mode_arg my_seconds_arg monte_seconds_arg
     server_timeout_arg wall_timeout_s monitor stream_server_log).

(** The vocabulary, at the arguments of the run. *)
Local Abbreviation server_log_of := (server_log_of out_dir).
Local Abbreviation my_log_of := (my_log_of out_dir).
Local Abbreviation ready_of := (ready_of out_dir).
Local Abbreviation got_end_of := (got_end_of out_dir wall_timeout_s).
Local Abbreviation path_of := (path_of out_dir wall_timeout_s).
Local Abbreviation tee_acts := (tee_acts stream_server_log).
Local Abbreviation path_acts := (path_acts stream_server_log).
Local Abbreviation path_winner := (path_winner out_dir).
Local Abbreviation result_row :=
  (result_row host_arg my_mode_arg my_seconds_arg monte_seconds_arg server_timeout_arg).
Local Abbreviation games_complete := (games_complete out_dir wall_timeout_s).
Local Abbreviation lane_rows :=
  (lane_rows host_arg out_dir my_mode_arg my_seconds_arg monte_seconds_arg
     server_timeout_arg wall_timeout_s monitor stream_server_log).

Lemma is_set_unset (w : World) :
  stop_in w <> Some O -> is_set w = Some (false, after_read w).
Proof.
  unfold is_set, after_read. destruct (stop_in w) as [[|k]|]; [congruence | reflexivity ..].
Qed.

Lemma is_set_set (w : World) : stop_in w = Some O -> is_set w = Some (true, w).
Proof. unfold is_set. intros ->. reflexivity. Qed.

Lemma wait_short_run (r : Role) (g : Z) (waited : option Z) (w : World) :
  wait_short r g waited w = Some (wait_code waited, add_events w (wait_events r g waited)).
Proof.
  unfold wait_short, wait_events, wait_code, bind, emit, ret, add_events.
  destruct waited; cbn; [reflexivity |].
  rewrite <- app_assoc. reflexivity.
Qed.

(** A game that is started (the flag is read unset) returns exactly when its
    two waits do, with the row and the events of its path. *)
Lemma run_one_game_started (env : GameEnv) (g worker port : Z) (w : World) :
  stop_in w <> Some O ->
  match path_of env worker g with
  | None => run_game env g worker port w = None
  | Some p =>
      exists evs,
        run_game env g worker port w =
          Some (result_row g worker port (path_winner env worker g p) (path_exits p),
                add_events (after_read w) evs) /\
        map act_of evs = path_acts g p /\
        events_of_game g evs
  end.
Proof.
  intros Hw. unfold path_of.
  assert (Hrun : run_game env g worker port w =
                 (let* stop := is_set in
                  if stop then ret (result_row g worker port stopped (130, 130))
                  else
                    emit (Spawned Server g
                            (["java"; "-Djava.awt.headless=false"; "-jar";
                              "Server/OthelloServer.jar"; "-port"; PyStr.str_of_Z port;
                              "-timeout"; PyStr.str_of_Z server_timeout_arg]
                             ++ (if monitor then ["-monitor"] else []))
                            (server_log_of worker g)) >>
                    when stream_server_log (emit (TeeStarted g)) >>
                    try_finally
                      (let* ready := observe (ready_of env worker g) in
                       if negb ready
                       then ret (result_row g worker port server_no_port (124, 124))
                       else
                         (match (if g mod 2 =? 1 then my_first else monte_first) with
                          | my_first =>
                              emit (Spawned MyClient g
                                      ["java"; "-cp"; "Src"; "OthelloClientBench"; host_arg;
                                       PyStr.str_of_Z port; my_mode_arg; my_seconds_arg]
                                      (my_log_of worker g)) >>
                              emit (Slept 100) >>
                              emit (Spawned MonteClient g
                                      ["java"; "-cp"; "TestSet"; "OthelloMonteAI"; host_arg;
                                       PyStr.str_of_Z port; PyStr.str_of_Z monte_seconds_arg]
                                      (path_join out_dir (log_name "monte" worker g)))
                          | monte_first =>
                              emit (Spawned MonteClient g
                                      ["java"; "-cp"; "TestSet"; "OthelloMonteAI"; host_arg;
                                       PyStr.str_of_Z port; PyStr.str_of_Z monte_seconds_arg]
                                      (path_join out_dir (log_name "monte" worker g))) >>
                              emit (Slept 100) >>
                              emit (Spawned MyClient g
                                      ["java"; "-cp"; "Src"; "OthelloClientBench"; host_arg;
                                       PyStr.str_of_Z port; my_mode_arg; my_seconds_arg]
                                      (my_log_of worker g))
                          end) >>
                         let* got_end := observe (got_end_of env worker g) in
                         if negb got_end then
                           emit (KillTree MyClient g) >>
                           emit (KillTree MonteClient g) >>
                           ret (result_row g worker port no_end (124, 124))
                         else
                           emit (KillTree Server g) >>
                           let* my_ec := wait_short MyClient g (my_wait env) in
                           let* monte_ec := wait_short MonteClient g (monte_wait env) in
                           ret (result_row g worker port
                                  (parse_winner_from_log (final_files env) (my_log_of worker g))
                                  (my_ec, monte_ec)))
                      (emit (KillTree Server g) >>
                       when stream_server_log (emit (TeeJoined g)))) w)
    by reflexivity.
  rewrite Hrun. clear Hrun.
  unfold path_acts, tee_acts, client_acts, wait_acts, events_of_game.
  destruct (ready_of env worker g) as [[|]|];
    [destruct (got_end_of env worker g) as [[|]|] | |];
    unfold bind at 1; rewrite (is_set_unset _ Hw);
    generalize (after_read w) as w0; intros w0.
  - (* "END " seen *)
    unfold try_finally, bind, when, observe, ret.
    destruct stream_server_log, (g mod 2 =? 1);
      cbn -[app wait_short]; rewrite wait_short_run;
      cbn -[app wait_short]; rewrite wait_short_run;
      destruct (my_wait env), (monte_wait env);
      cbn -[app]; unfold add_events; cbn -[app]; rewrite <- !app_assoc;
      (eexists; split; [reflexivity | split; [reflexivity | repeat constructor]]).
  - (* no "END " within the wall timeout *)
    unfold try_finally, bind, when, observe, ret.
    destruct stream_server_log, (g mod 2 =? 1);
      cbn -[app]; unfold add_events; cbn -[app]; rewrite <- !app_assoc;
      (eexists; split; [reflexivity | split; [reflexivity | repeat constructor]]).
  - unfold try_finally, bind, when, observe, ret.
    destruct stream_server_log, (g mod 2 =? 1); reflexivity.
  - (* the server never announced itself *)
    unfold try_finally, bind, when, observe, ret.
    destruct stream_server_log;
      cbn -[app]; unfold add_events; cbn -[app]; rewrite <- !app_assoc;
      (eexists; split; [reflexivity | split; [reflexivity | repeat constructor]]).
  - unfold try_finally, bind, when, observe, ret.
    destruct stream_server_log; reflexivity.
Qed.

Lemma run_one_game_stopped (env : GameEnv) (g worker port : Z) (w : World) :
  stop_in w = Some O ->
  run_game env g worker port w = Some (result_row g worker port stopped (130, 130), w).
Proof.
  intros Hw. unfold run_one_game. unfold bind at 1. rewrite (is_set_set _ Hw). reflexivity.
Qed.

(** Whatever a game does, its row carries its index. *)
Lemma run_one_game_index (env : GameEnv) (g worker port : Z) (w w' : World) (row : Row) :
  run_game env g worker port w = Some (row, w') -> game row = g.
Proof.
  intros Hrun. destruct (decide (stop_in w = Some O)) as [Hw | Hw].
  - rewrite (run_one_game_stopped _ _ _ _ _ Hw) in Hrun.
    injection Hrun as <- _. reflexivity.
  - pose proof (run_one_game_started env g worker port w Hw) as Hst.
    destruct (path_of env worker g); [| congruence].
    destruct Hst as (evs & Hrun' & _). rewrite Hrun' in Hrun.
    injection Hrun as <- _. reflexivity.
Qed.

Lemma path_of_started (env : GameEnv) (worker g : Z) (p : GamePath) :
  path_of env worker g = Some p -> p <> PathStopped.
Proof.
  unfold path_of. destruct (ready_of env worker g) as [[|]|];
    [destruct (got_end_of env worker g) as [[|]|] | |]; congruence.
Qed.

(** C8.  When the server of a game does not announce itself within the
    readiness timeout ([wait_server_ready] returns [False]), the row of the
    game has [winner = server_no_port] and both exit codes 124; the game
    started the server and no player, and called [kill_tree] on the server
    once. *)
Theorem server_not_ready_row (env : GameEnv) (g worker port : Z) (w : World) :
  stop_in w <> Some O ->
  wait_server_ready (server_log_of worker g) 12000 (ready_start env) (ready_polls env)
    = Some false ->
  exists row evs,
    run_game env g worker port w = Some (row, add_events (after_read w) evs) /\
    game row = g /\ winner row = server_no_port /\
    my_exit row = 124 /\ monte_exit row = 124 /\
    events_of_game g evs /\
    spawns Server evs = 1%nat /\ spawns MyClient evs = 0%nat /\
    spawns MonteClient evs = 0%nat /\ kills Server evs = 1%nat.
Proof.
  intros Hw Hready.
  pose proof (run_one_game_started env g worker port w Hw) as Hrun.
  unfold path_of, ready_of in Hrun. rewrite Hready in Hrun.
  destruct Hrun as (evs & Hrun & Hacts & Hg).
  eexists _, evs. split; [exact Hrun |].
  unfold spawns, kills. rewrite Hacts. unfold path_acts, tee_acts.
  repeat split; try assumption; destruct stream_server_log; reflexivity.
Qed.

(** C3, as the code has it.  A game that finds the flag set starts nothing
    and tears nothing down.  A game that starts its server and returns
    leaves by one of three ways, and on each the last process action is
    [kill_tree] on the server, from the [finally] block: when the server
    never announced itself, that is the only teardown; when no "END " came
    within the wall timeout, [kill_tree] ran once on each player and once on
    the server; when "END " came, [kill_tree] ran twice on the server (once
    on seeing "END ", once in the [finally] block) and on a player only if
    its ten-second wait timed out. *)
Theorem teardown_by_path (env : GameEnv) (g worker port : Z) (w w' : World) (row : Row) :
  run_game env g worker port w = Some (row, w') ->
  (stop_in w = Some O -> w' = w /\ winner row = stopped) /\
  (stop_in w <> Some O ->
   exists p evs before last,
     path_of env worker g = Some p /\
     w' = add_events (after_read w) evs /\
     events_of_game g evs /\
     winner row = path_winner env worker g p /\
     spawns Server evs = 1%nat /\
     evs = before ++ last /\ map act_of last = AKill Server :: tee_acts /\
     teardown_of_path p evs).
Proof.
  intros Hrun. split.
  - intros Hw. rewrite (run_one_game_stopped _ _ _ _ _ Hw) in Hrun.
    injection Hrun as <- <-. split; reflexivity.
  - intros Hw.
    pose proof (run_one_game_started env g worker port w Hw) as Hst.
    destruct (path_of env worker g) as [p|] eqn:Hp; [| congruence].
    apply path_of_started in Hp.
    destruct Hst as (evs & Hrun' & Hacts & Hg).
    rewrite Hrun' in Hrun. injection Hrun as <- <-.
    assert (Hlast : exists before last,
               evs = before ++ last /\ map act_of last = AKill Server :: tee_acts).
    { assert (Hsplit : exists pre, path_acts g p = pre ++ AKill Server :: tee_acts).
      { destruct p as [| | |my_w monte_w]; unfold path_acts.
        - congruence.
        - exists ([ASpawn Server] ++ tee_acts). rewrite <- !app_assoc. reflexivity.
        - exists ([ASpawn Server] ++ tee_acts ++ client_acts g ++
                  [AKill MyClient; AKill MonteClient]).
          rewrite <- !app_assoc. reflexivity.
        - exists ([ASpawn Server] ++ tee_acts ++ client_acts g ++ [AKill Server] ++
                  wait_acts MyClient my_w ++ wait_acts MonteClient monte_w).
          rewrite <- !app_assoc. reflexivity. }
      destruct Hsplit as [pre Hpre]. rewrite Hpre in Hacts.
      apply map_eq_app in Hacts as (before & last & -> & _ & Hl).
      exists before, last. split; [reflexivity | exact Hl]. }
    destruct Hlast as (before & last & Hevs & Hl).
    exists p, evs, before, last.
    split; [reflexivity |]. split; [reflexivity |]. split; [exact Hg |].
    split; [reflexivity |].
    unfold teardown_of_path, spawns, kills. rewrite Hacts.
    split; [| split; [exact Hevs | split; [exact Hl |]]].
    + destruct p as [| | |my_w monte_w]; unfold path_acts, tee_acts, client_acts, wait_acts;
        [ congruence
        | destruct stream_server_log; reflexivity
        | destruct stream_server_log, (g mod 2 =? 1); reflexivity
        | destruct stream_server_log, (g mod 2 =? 1), my_w, monte_w; reflexivity ].
    + destruct p as [| | |my_w monte_w]; unfold path_acts, tee_acts, client_acts, wait_acts;
        [ congruence
        | destruct stream_server_log; repeat split; reflexivity
        | destruct stream_server_log, (g mod 2 =? 1); repeat split; reflexivity
        | destruct stream_server_log, (g mod 2 =? 1), my_w, monte_w; repeat split; reflexivity ].
Qed.

End RunnerFacts.

Lemma server_not_ready_row_witness :
  exists row evs,
    run_one_game "localhost" "out" "tt" "3.0" 10 12 1200 false true
      env_never_ready 1 0 25033 fresh_world
      = Some (row, add_events (after_read fresh_world) evs) /\
    game row = 1 /\ winner row = server_no_port /\
    my_exit row = 124 /\ monte_exit row = 124 /\
    events_of_game 1 evs /\
    spawns Server evs = 1%nat /\ spawns MyClient evs = 0%nat /\
    spawns MonteClient evs = 0%nat /\ kills Server evs = 1%nat.
Proof.
  apply (server_not_ready_row "localhost" "out" "tt" "3.0" 10 12 1200 false true
           env_never_ready 1 0 25033 fresh_world).
  - discriminate.
  - reflexivity.
Defined.

Lemma teardown_by_path_witness :
  exists row w' evs,
    run_one_game "localhost" "out" "tt" "3.0" 10 12 1200 false true
      env_game_won 1 0 25033 fresh_world = Some (row, w') /\
    w' = add_events (after_read fresh_world) evs /\
    path_of "out" 1200 env_game_won 0 1 = Some (PathEnd (Some 0) (Some 0)) /\
    teardown_of_path (PathEnd (Some 0) (Some 0)) evs.
Proof.
  destruct (run_one_game "localhost" "out" "tt" "3.0" 10 12 1200 false true
              env_game_won 1 0 25033 fresh_world) as [[row w']|] eqn:Hrun.
  - destruct (teardown_by_path "localhost" "out" "tt" "3.0" 10 12 1200 false true
                env_game_won 1 0 25033 fresh_world w' row Hrun) as [_ Hstarted].
    destruct Hstarted as (p & evs & before & last & Hp & Hw & _ & _ & _ & _ & _ & Ht);
      [discriminate |].
    exists row, w', evs. split; [reflexivity |]. split; [exact Hw |].
    assert (Hpath : path_of "out" 1200 env_game_won 0 1 = Some (PathEnd (Some 0) (Some 0)))
      by reflexivity.
    split; [exact Hpath |].
    rewrite Hpath in Hp. injection Hp as <-. exact Ht.
  - vm_compute in Hrun. discriminate Hrun.
Defined.

(** C3, as stated, fails: in a game that is played to its end and whose
    players exit by themselves once the server is gone, [kill_tree] runs
    twice on the server and not at all on the two players, which were
    started. *)
Lemma server_killed_twice_on_success :
  option_map
    (fun rw : Row * World =>
       (winner rw.1, spawns MyClient (trace rw.2), spawns MonteClient (trace rw.2),
        kills Server (trace rw.2), kills MyClient (trace rw.2),
        kills MonteClient (trace rw.2)))
    (run_one_game "localhost" "out" "tt" "3.0" 10 12 1200 false true
       env_game_won 1 0 25033 fresh_world)
  = Some (my, 1%nat, 1%nat, 2%nat, 0%nat, 0%nat).
Proof. vm_compute. reflexivity. Qed.

(* ===================================================================== *)
(** * The worker lane                                                  *)
(* ===================================================================== *)

Section StrideFacts.

Lemma stride_nil (first step last : Z) :
  1 <= step -> last < first -> stride first step last = [].
Proof.
  intros Hs Hl. unfold stride.
  assert ((last - first) / step < 0) by (apply Z.div_lt_upper_bound; lia).
  replace (Z.to_nat ((last - first) / step + 1)) with O by lia. reflexivity.
Qed.

Lemma stride_cons (first step last : Z) :
  1 <= step -> first <= last ->
  stride first step last = first :: stride (first + step) step last.
Proof.
  intros Hs Hl. unfold stride.
  assert (Hdiv : (last - first) / step = (last - (first + step)) / step + 1).
  { replace (last - first) with ((last - (first + step)) + 1 * step) by lia.
    rewrite Z.div_add by lia. reflexivity. }
  assert (0 <= (last - first) / step) by (apply Z.div_pos; lia).
  replace (Z.to_nat ((last - first) / step + 1))
    with (S (Z.to_nat ((last - (first + step)) / step + 1))) by lia.
  cbn [seq map]. f_equal; [lia |].
  rewrite <- seq_shift, map_map. apply map_ext. intros k. lia.
Qed.

Lemma stride_length_bound (first step last : Z) :
  1 <= step -> 1 <= first -> (length (stride first step last) <= Z.to_nat last)%nat.
Proof.
  intros Hs Hf. unfold stride. rewrite length_map, length_seq.
  destruct (Z_lt_le_dec last first) as [Hl | Hl].
  - assert ((last - first) / step < 0) by (apply Z.div_lt_upper_bound; lia). lia.
  - assert ((last - first) / step <= last - first).
    { apply Z.div_le_upper_bound; nia. }
    lia.
Qed.

(** Membership in a stride. *)
Lemma elem_of_stride (first step last g : Z) :
  1 <= step ->
  In g (stride first step last) <->
  first <= g <= last /\ (g - first) mod step = 0.
Proof.
  intros Hs. unfold stride. rewrite in_map_iff. split.
  - intros (k & <- & Hk). apply in_seq in Hk.
    destruct (Z_lt_le_dec last first) as [Hl | Hl].
    { assert ((last - first) / step < 0) by (apply Z.div_lt_upper_bound; lia). lia. }
    assert (Hk' : Z.of_nat k <= (last - first) / step) by lia.
    assert (Z.of_nat k * step <= last - first).
    { etransitivity; [apply Z.mul_le_mono_nonneg_r; [lia | exact Hk'] |].
      rewrite Z.mul_comm. apply Z.mul_div_le. lia. }
    split; [nia |].
    replace (first + Z.of_nat k * step - first) with (Z.of_nat k * step) by lia.
    apply Z.mod_mul. lia.
  - intros [[Hlo Hhi] Hmod].
    exists (Z.to_nat ((g - first) / step)).
    assert (0 <= (g - first) / step) by (apply Z.div_pos; lia).
    assert ((g - first) / step <= (last - first) / step) by (apply Z.div_le_mono; lia).
    split.
    + rewrite Z2Nat.id by assumption.
      pose proof (Z.div_mod (g - first) step ltac:(lia)) as Hdm.
      rewrite Hmod in Hdm. lia.
    + apply in_seq. lia.
Qed.

(** A stride ascends strictly. *)
Lemma stride_sorted (first step last : Z) :
  1 <= step -> StronglySorted Z.lt (stride first step last).
Proof.
  intros Hs. unfold stride.
  generalize (Z.to_nat ((last - first) / step + 1)) as n. generalize O as a.
  intros a n. revert a. induction n as [|n IH]; intros a; cbn [seq map].
  - constructor.
  - constructor; [apply IH |].
    apply Forall_forall. intros x Hx. apply list_elem_of_In, in_map_iff in Hx.
    destruct Hx as (k & <- & Hk). apply in_seq in Hk. nia.
Qed.

(** The stride of a lane: the indices of [1, games] that are [lane + 1]
    modulo [parallel]. *)
Lemma stride_lane_member (games parallel lane g : Z) :
  1 <= parallel -> 0 <= lane < parallel ->
  In g (stride (lane + 1) parallel games) <->
  1 <= g <= games /\ (g - 1) mod parallel = lane.
Proof.
  intros HP Hlane. rewrite elem_of_stride by lia. split.
  - intros [Hr Hm]. split; [lia |].
    replace (g - 1) with ((g - (lane + 1)) + lane) by lia.
    rewrite Z.add_mod, Hm by lia. rewrite Z.add_0_l, Z.mod_mod by lia.
    apply Z.mod_small. lia.
  - intros [Hr Hm].
    pose proof (Z.div_mod (g - 1) parallel ltac:(lia)) as Hdm.
    assert (0 <= (g - 1) / parallel) by (apply Z.div_pos; lia).
    split; [nia |].
    replace (g - (lane + 1)) with (((g - 1) / parallel) * parallel) by lia.
    apply Z.mod_mul. lia.
Qed.

(** Every index of [1, games] is in the stride of one lane only. *)
Lemma stride_lane_unique (games parallel g : Z) :
  1 <= parallel -> 1 <= g <= games ->
  exists lane,
    (0 <= lane < parallel /\ In g (stride (lane + 1) parallel games)) /\
    forall lane', 0 <= lane' < parallel ->
      In g (stride (lane' + 1) parallel games) -> lane' = lane.
Proof.
  intros HP Hg. exists ((g - 1) mod parallel).
  assert (Hlane : 0 <= (g - 1) mod parallel < parallel) by (apply Z.mod_pos_bound; lia).
  split.
  - split; [exact Hlane |].
    apply stride_lane_member; [exact HP | exact Hlane | split; [exact Hg | reflexivity]].
  - intros lane' Hlane' Hin. apply stride_lane_member in Hin; [| exact HP | exact Hlane'].
    destruct Hin as [_ Hin]. symmetry. exact Hin.
Qed.

End StrideFacts.

Section LaneFacts.

Variables (host_arg : string) (out_dir : string).
Variables (my_mode_arg : string) (my_seconds_arg : string) (monte_seconds_arg : Z).
Variables (server_timeout_arg : Z) (wall_timeout_s : Z).
Variables (monitor : bool) (stream_server_log : bool).

Local Abbreviation run_game :=
  (run_one_game host_arg out_dir my_mode_arg my_seconds_arg monte_seconds_arg
     server_timeout_arg wall_timeout_s monitor stream_server_log).

Local Abbreviation loop_from :=
  (worker_loop_from host_arg out_dir my_mode_arg my_seconds_arg monte_seconds_arg
     server_timeout_arg wall_timeout_s monitor stream_server_log).

Local Abbreviation lane_loop :=
  (worker_loop host_arg out_dir my_mode_arg my_seconds_arg monte_seconds_arg
     server_timeout_arg wall_timeout_s monitor stream_server_log).

Local Abbreviation lane_run :=
  (run_lane host_arg out_dir my_mode_arg my_seconds_arg monte_seconds_arg
     server_timeout_arg wall_timeout_s monitor stream_server_log).

Local Abbreviation collect_rows :=
  (collect host_arg out_dir my_mode_arg my_seconds_arg monte_seconds_arg
     server_timeout_arg wall_timeout_s monitor stream_server_log).

Local Abbreviation merged :=
  (main_results host_arg out_dir my_mode_arg my_seconds_arg monte_seconds_arg
     server_timeout_arg wall_timeout_s monitor stream_server_log).

(** The vocabulary, at the arguments of the run. *)
Local Abbreviation server_log_of := (server_log_of out_dir).
Local Abbreviation my_log_of := (my_log_of out_dir).
Local Abbreviation ready_of := (ready_of out_dir).
Local Abbreviation got_end_of := (got_end_of out_dir wall_timeout_s).
Local Abbreviation path_of := (path_of out_dir wall_timeout_s).
Local Abbreviation tee_acts := (tee_acts stream_server_log).
Local Abbreviation path_acts := (path_acts stream_server_log).
Local Abbreviation path_winner := (path_winner out_dir).
Local Abbreviation result_row :=
  (result_row host_arg my_mode_arg my_seconds_arg monte_seconds_arg server_timeout_arg).
Local Abbreviation games_complete := (games_complete out_dir wall_timeout_s).
Local Abbreviation lane_rows :=
  (lane_rows host_arg out_dir my_mode_arg my_seconds_arg monte_seconds_arg
     server_timeout_arg wall_timeout_s monitor stream_server_log).

Lemma loop_from_unfold (fuel : nat) (envs : Z -> GameEnv)
    (worker games parallel port g : Z) (results : list Row) :
  loop_from (S fuel) envs worker games parallel port g results =
    if g <=? games then
      let* stop := is_set in
      if stop then ret results
      else
        let* r := run_game (envs g) g worker port in
        loop_from fuel envs worker games parallel port (g + parallel) (results ++ [r])
    else ret results.
Proof. reflexivity. Qed.

(** A lane that never sees the flag set runs its whole stride. *)
Lemma loop_uncancelled (envs : Z -> GameEnv) (worker games parallel port : Z) :
  1 <= parallel ->
  forall (n fuel : nat) (g : Z) (results : list Row) (w : World),
    1 <= g ->
    length (stride g parallel games) = n -> (n < fuel)%nat ->
    stop_in w = None -> games_complete envs worker games ->
    exists rows w',
      loop_from fuel envs worker games parallel port g results w = Some (results ++ rows, w') /\
      map game rows = stride g parallel games /\ stop_in w' = None.
Proof.
  intros HP. induction n as [|n IH]; intros fuel g results w Hg Hlen Hfuel Hw Hcomplete.
  - destruct fuel as [|fuel]; [lia |]. rewrite loop_from_unfold.
    destruct (Z.leb_spec g games) as [Hle | Hgt].
    + rewrite stride_cons in Hlen by lia. discriminate Hlen.
    + exists [], w. rewrite app_nil_r, stride_nil by lia. repeat split. exact Hw.
  - destruct fuel as [|fuel]; [lia |]. rewrite loop_from_unfold.
    destruct (Z.leb_spec g games) as [Hle | Hgt].
    2: { rewrite stride_nil in Hlen by lia. discriminate Hlen. }
    rewrite stride_cons in Hlen |- * by lia. cbn [length] in Hlen.
    assert (Hw0 : stop_in w <> Some O) by (rewrite Hw; discriminate).
    unfold bind at 1. rewrite (is_set_unset _ Hw0).
    assert (Hread : after_read w = w) by (unfold after_read; rewrite Hw; reflexivity).
    rewrite Hread.
    pose proof (run_one_game_started host_arg out_dir my_mode_arg my_seconds_arg
                  monte_seconds_arg server_timeout_arg wall_timeout_s monitor
                  stream_server_log (envs g) g worker port w Hw0) as Hst.
    destruct (Hcomplete g ltac:(lia)) as [p Hp]. rewrite Hp, Hread in Hst.
    destruct Hst as (evs & Hrun & _).
    unfold bind. rewrite Hrun.
    destruct (IH fuel (g + parallel) (results ++ [result_row g worker port
                 (path_winner (envs g) worker g p) (path_exits p)])
                (add_events w evs)) as (rows & w' & Hloop & Hgames & Hw');
      [lia | lia | lia | exact Hw | exact Hcomplete |].
    eexists (_ :: rows), w'. rewrite Hloop, <- app_assoc.
    split; [reflexivity |]. split; [| exact Hw'].
    cbn [map]. rewrite Hgames. reflexivity.
Qed.

(** Whenever a lane returns, cancelled or not, the rows it added are for an
    initial part of its stride, in order. *)
Lemma loop_prefix (envs : Z -> GameEnv) (worker games parallel port : Z) :
  1 <= parallel ->
  forall (fuel : nat) (g : Z) (results all : list Row) (w w' : World),
    loop_from fuel envs worker games parallel port g results w = Some (all, w') ->
    exists rows,
      all = results ++ rows /\ map game rows `prefix_of` stride g parallel games.
Proof.
  intros HP. induction fuel as [|fuel IH]; intros g results all w w'; [discriminate |].
  rewrite loop_from_unfold.
  destruct (Z.leb_spec g games) as [Hle | Hgt].
  - unfold bind at 1. destruct (is_set w) as [[[|] w1]|]; [| | discriminate].
    + intros [= <- <-]. exists []. rewrite app_nil_r. split; [reflexivity |].
      apply prefix_nil.
    + unfold bind. destruct (run_game (envs g) g worker port w1) as [[row w2]|] eqn:Hrun;
        [| discriminate].
      intros Hloop. destruct (IH _ _ _ _ _ Hloop) as (rows & -> & Hpre).
      exists (row :: rows). rewrite <- app_assoc. split; [reflexivity |].
      rewrite stride_cons by lia. cbn [map].
      rewrite (run_one_game_index host_arg out_dir my_mode_arg my_seconds_arg
                 monte_seconds_arg server_timeout_arg wall_timeout_s monitor
                 stream_server_log _ _ _ _ _ _ _ Hrun).
      apply prefix_cons, Hpre.
  - intros [= <- <-]. exists []. rewrite app_nil_r. split; [reflexivity |].
    apply prefix_nil.
Qed.

(** A lane that is not cancelled, from its first game. *)
Lemma lane_uncancelled (envs : Z -> GameEnv) (worker games parallel port_base : Z)
    (fuel : nat) (w : World) :
  1 <= parallel -> 0 <= worker ->
  stop_in w = None -> games_complete envs worker games -> (Z.to_nat games < fuel)%nat ->
  exists rows w',
    lane_loop fuel envs worker games parallel port_base w = Some (rows, w') /\
    map game rows = stride (worker + 1) parallel games.
Proof.
  intros HP Hw Hstop Hcomplete Hfuel. unfold worker_loop.
  destruct (loop_uncancelled envs worker games parallel (port_base + worker) HP
              (length (stride (worker + 1) parallel games)) fuel (worker + 1) [] w)
    as (rows & w' & Hloop & Hgames & _); try assumption; try lia.
  { pose proof (stride_length_bound (worker + 1) parallel games). lia. }
  exists rows, w'. split; [exact Hloop | exact Hgames].
Qed.

(** A lane that returns, cancelled or not, from its first game. *)
Lemma lane_prefix (envs : Z -> GameEnv) (worker games parallel port_base : Z)
    (fuel : nat) (w w' : World) (rows : list Row) :
  1 <= parallel ->
  lane_loop fuel envs worker games parallel port_base w = Some (rows, w') ->
  map game rows `prefix_of` stride (worker + 1) parallel games.
Proof.
  intros HP Hloop. unfold worker_loop in Hloop.
  destruct (loop_prefix envs worker games parallel (port_base + worker) HP
              _ _ _ _ _ _ Hloop) as (rows' & -> & Hpre).
  exact Hpre.
Qed.

(** C2, as the code has it.  When the loop test of a lane finds the flag
    set, the lane returns the rows it has: neither the game at hand nor any
    later game of the lane gets a row, and nothing is started.  When the
    flag is set after that test and before the runner's own test, that one
    game gets a row with [winner = stopped] and both exit codes 130, nothing
    is started for it, and the lane returns at its next loop test: its
    later games get no row. *)
Theorem cancelled_lane_returns (fuel : nat) (envs : Z -> GameEnv)
    (worker games parallel port g : Z) (results : list Row) (w : World) :
  (stop_in w = Some O ->
     loop_from (S fuel) envs worker games parallel port g results w = Some (results, w)) /\
  (stop_in w = Some 1%nat -> g <= games ->
     loop_from (S (S fuel)) envs worker games parallel port g results w =
       Some (results ++ [result_row g worker port stopped (130, 130)],
             {| stop_in := Some O; trace := trace w |})).
Proof.
  assert (Hseen : forall f g' res w0, stop_in w0 = Some O ->
            loop_from (S f) envs worker games parallel port g' res w0 = Some (res, w0)).
  { intros f g' res w0 Hw0. rewrite loop_from_unfold.
    destruct (g' <=? games); [| reflexivity].
    unfold bind. rewrite (is_set_set _ Hw0). reflexivity. }
  split; [apply Hseen |].
  intros Hw Hle. rewrite loop_from_unfold.
  apply Z.leb_le in Hle. rewrite Hle.
  assert (Hw0 : stop_in w <> Some O) by (rewrite Hw; discriminate).
  unfold bind at 1. rewrite (is_set_unset _ Hw0).
  assert (Hread : after_read w = {| stop_in := Some O; trace := trace w |})
    by (unfold after_read; rewrite Hw; reflexivity).
  rewrite Hread. unfold bind.
  rewrite (run_one_game_stopped host_arg out_dir my_mode_arg my_seconds_arg
             monte_seconds_arg server_timeout_arg wall_timeout_s monitor
             stream_server_log (envs g) g worker port
             {| stop_in := Some O; trace := trace w |} eq_refl).
  apply Hseen. reflexivity.
Qed.

(** C7, as the code has it.  With [parallel >= 1] lanes and [games >= 0]
    games, a lane [worker] in [0, parallel) that is not cancelled runs, in
    this order, the games [worker + 1], [worker + 1 + parallel], ... up to
    [games]; a lane that is cancelled has run an initial part of that list
    when it returns.  The list holds the indices of [1, games] that are
    [worker + 1] modulo [parallel], so every index of [1, games] is in the
    list of exactly one lane. *)
Theorem lane_runs_its_stride (envs : Z -> GameEnv) (worker games parallel port_base : Z) :
  1 <= parallel -> 0 <= games -> 0 <= worker < parallel ->
  (forall fuel w,
     stop_in w = None -> games_complete envs worker games -> (Z.to_nat games < fuel)%nat ->
     exists rows w',
       lane_loop fuel envs worker games parallel port_base w = Some (rows, w') /\
       map game rows = stride (worker + 1) parallel games) /\
  (forall fuel w rows w',
     lane_loop fuel envs worker games parallel port_base w = Some (rows, w') ->
     map game rows `prefix_of` stride (worker + 1) parallel games) /\
  (forall g, In g (stride (worker + 1) parallel games) <->
             1 <= g <= games /\ (g - 1) mod parallel = worker) /\
  (forall g, 1 <= g <= games ->
     exists lane,
       (0 <= lane < parallel /\ In g (stride (lane + 1) parallel games)) /\
       forall lane', 0 <= lane' < parallel ->
         In g (stride (lane' + 1) parallel games) -> lane' = lane).
Proof.
  intros HP HN Hw. split; [| split; [| split]].
  - intros fuel w Hstop Hcomplete Hfuel. apply lane_uncancelled; (assumption || lia).
  - intros fuel w rows w' Hloop. eapply lane_prefix; eassumption.
  - intros g. apply stride_lane_member; assumption.
  - intros g Hg. apply stride_lane_unique; assumption.
Qed.

End LaneFacts.

Lemma env_timeout_complete (worker games : Z) :
  games_complete "out" 1200 (fun _ => env_timeout) worker games.
Proof. intros g _. exists PathNoPort. reflexivity. Qed.

(** The flag is set between the loop test for game 1 and the test of the
    runner: game 1 is recorded as stopped, game 3 is not recorded. *)
Lemma cancelled_lane_returns_witness :
  worker_loop_from "localhost" "out" "tt" "3.0" 10 12 1200 false true
    2 (fun _ => env_timeout) 0 4 2 25033 1 [] {| stop_in := Some 1%nat; trace := [] |}
  = Some ([result_row "localhost" "tt" "3.0" 10 12 1 0 25033 stopped (130, 130)],
          {| stop_in := Some O; trace := [] |}) /\
  worker_loop_from "localhost" "out" "tt" "3.0" 10 12 1200 false true
    1 (fun _ => env_timeout) 0 4 2 25033 1 [] {| stop_in := Some O; trace := [] |}
  = Some ([], {| stop_in := Some O; trace := [] |}).
Proof.
  split.
  - apply (cancelled_lane_returns "localhost" "out" "tt" "3.0" 10 12 1200 false true
             0 (fun _ => env_timeout) 0 4 2 25033 1 [] {| stop_in := Some 1%nat; trace := [] |});
      [reflexivity | lia].
  - apply (cancelled_lane_returns "localhost" "out" "tt" "3.0" 10 12 1200 false true
             0 (fun _ => env_timeout) 0 4 2 25033 1 [] {| stop_in := Some O; trace := [] |}).
    reflexivity.
Defined.

(** C2, as stated, fails: lane 0 of a run of two games on one lane owns the
    games 1 and 2; cancelled before it starts, it returns no row at all,
    where the claim has a [stopped] row for each. *)
Lemma cancelled_lane_records_nothing :
  stride (0 + 1) 1 2 = [1; 2] /\
  worker_loop "localhost" "out" "tt" "3.0" 10 12 1200 false true
    5 (fun _ => env_timeout) 0 2 1 25033 {| stop_in := Some O; trace := [] |}
  = Some ([], {| stop_in := Some O; trace := [] |}).
Proof. split; reflexivity. Qed.

(** Four games on two lanes: lane 0 runs the games 1 and 3, lane 1 the
    games 2 and 4. *)
Lemma lane_runs_its_stride_witness :
  (exists rows w',
     worker_loop "localhost" "out" "tt" "3.0" 10 12 1200 false true
       5 (fun _ => env_timeout) 0 4 2 25033 fresh_world = Some (rows, w') /\
     map game rows = [1; 3]) /\
  (exists rows w',
     worker_loop "localhost" "out" "tt" "3.0" 10 12 1200 false true
       5 (fun _ => env_timeout) 1 4 2 25033 fresh_world = Some (rows, w') /\
     map game rows = [2; 4]).
Proof.
  split.
  - destruct (lane_runs_its_stride "localhost" "out" "tt" "3.0" 10 12 1200 false true
                (fun _ => env_timeout) 0 4 2 25033) as [Hfull _]; [lia | lia | lia |].
    apply (Hfull 5%nat fresh_world);
      [reflexivity | apply env_timeout_complete | vm_compute; lia].
  - destruct (lane_runs_its_stride "localhost" "out" "tt" "3.0" 10 12 1200 false true
                (fun _ => env_timeout) 1 4 2 25033) as [Hfull _]; [lia | lia | lia |].
    apply (Hfull 5%nat fresh_world);
      [reflexivity | apply env_timeout_complete | vm_compute; lia].
Defined.

(** C7, as stated, fails: lane 0 of four games on two lanes, cancelled
    while its game 1 is played, runs game 1 and not game 3. *)
Lemma cancelled_lane_runs_prefix :
  stride (0 + 1) 2 4 = [1; 3] /\
  option_map (fun rw : list Row * World => map game rw.1)
    (worker_loop "localhost" "out" "tt" "3.0" 10 12 1200 false true
       5 (fun _ => env_timeout) 0 4 2 25033 {| stop_in := Some 2%nat; trace := [] |})
  = Some [1].
Proof. split; vm_compute; reflexivity. Qed.

(* ===================================================================== *)
(** * The merge of the lanes                                           *)
(* ===================================================================== *)

Section SortFacts.

Lemma insert_row_perm (r : Row) (l : list Row) : insert_row r l ≡ₚ r :: l.
Proof.
  induction l as [|x xs IH]; cbn [insert_row]; [reflexivity |].
  destruct (game r <=? game x); [reflexivity |].
  rewrite IH. apply Permutation_swap.
Qed.

Lemma sort_rows_perm (l : list Row) : sort_rows l ≡ₚ l.
Proof.
  induction l as [|x xs IH]; [reflexivity |].
  cbn [sort_rows foldr]. rewrite insert_row_perm. fold (sort_rows xs).
  rewrite IH. reflexivity.
Qed.

Lemma insert_row_sorted (r : Row) (l : list Row) :
  StronglySorted by_game l -> StronglySorted by_game (insert_row r l).
Proof.
  induction l as [|x xs IH]; intros Hs; cbn [insert_row].
  - repeat constructor.
  - apply StronglySorted_inv in Hs as [Hxs Hx].
    destruct (Z.leb_spec (game r) (game x)) as [Hle | Hgt].
    + constructor; [constructor; assumption |].
      constructor; [exact Hle |].
      eapply Forall_impl; [exact Hx |]. unfold by_game. intros y Hy. lia.
    + constructor; [apply IH, Hxs |].
      rewrite insert_row_perm. constructor; [unfold by_game; lia | exact Hx].
Qed.

Lemma sort_rows_sorted (l : list Row) : StronglySorted by_game (sort_rows l).
Proof.
  induction l as [|x xs IH]; [constructor |].
  cbn [sort_rows foldr]. apply insert_row_sorted, IH.
Qed.

Lemma sorted_games (l : list Row) : StronglySorted Z.le (map game (sort_rows l)).
Proof.
  apply (StronglySorted_fmap game by_game Z.le); [auto | apply sort_rows_sorted].
Qed.

(** An ascending list without repetition ascends strictly. *)
Lemma sorted_nodup_strict (l : list Z) :
  StronglySorted Z.le l -> NoDup l -> StronglySorted Z.lt l.
Proof.
  induction 1 as [|x l Hs IH Hx]; intros Hnd; [constructor |].
  apply NoDup_cons in Hnd as [Hnin Hnd].
  constructor; [apply IH, Hnd |].
  apply Forall_forall. intros y Hy.
  rewrite Forall_forall in Hx. specialize (Hx y Hy).
  assert (x <> y) by (intros ->; contradiction). lia.
Qed.

Lemma strict_sorted_le (l : list Z) : StronglySorted Z.lt l -> StronglySorted Z.le l.
Proof.
  induction 1 as [|x l Hs IH Hx]; constructor; [assumption |].
  eapply Forall_impl; [exact Hx |]. intros y Hy. lia.
Qed.

Lemma strict_sorted_nodup (l : list Z) : StronglySorted Z.lt l -> NoDup l.
Proof.
  induction 1 as [|x l Hs IH Hx]; constructor; [| assumption].
  intros Hin. rewrite Forall_forall in Hx. specialize (Hx x Hin). lia.
Qed.

Lemma elem_of_range (n x : Z) : x ∈ range n <-> 0 <= x < n.
Proof.
  unfold range. rewrite list_elem_of_In, in_map_iff. split.
  - intros (k & <- & Hk). apply in_seq in Hk. lia.
  - intros Hx. exists (Z.to_nat x). split; [lia |]. apply in_seq. lia.
Qed.

Lemma range_nodup (n : Z) : NoDup (range n).
Proof.
  unfold range. apply (NoDup_fmap_2 Z.of_nat). apply NoDup_ListNoDup, seq_NoDup.
Qed.

Lemma fmap_bind_games (f : Z -> list Row) (l : list Z) :
  map game (l ≫= f) = l ≫= (fun x => map game (f x)).
Proof.
  induction l as [|x l IH]; [reflexivity |]. cbn. rewrite map_app, IH. reflexivity.
Qed.

Lemma bind_ext_in {A B} (f g : A -> list B) (l : list A) :
  (forall x, x ∈ l -> f x = g x) -> l ≫= f = l ≫= g.
Proof.
  induction l as [|x l IH]; intros Hfg; [reflexivity |]. cbn.
  rewrite (Hfg x) by apply list_elem_of_here.
  rewrite IH; [reflexivity |]. intros y Hy. apply Hfg, list_elem_of_further, Hy.
Qed.

(** The strides of the lanes [0 .. parallel - 1], one after the other, hold
    each index of [1, games] once. *)
Lemma strides_partition (games parallel : Z) :
  1 <= parallel ->
  range parallel ≫= (fun lane => stride (lane + 1) parallel games) ≡ₚ stride 1 1 games.
Proof.
  intros HP. apply NoDup_Permutation.
  - apply NoDup_bind; [| | apply range_nodup].
    + intros x1 x2 y Hx1 Hx2 Hy1 Hy2. apply elem_of_range in Hx1, Hx2.
      apply list_elem_of_In, stride_lane_member in Hy1, Hy2; [| assumption ..]. lia.
    + intros x _. apply strict_sorted_nodup, stride_sorted. lia.
  - apply strict_sorted_nodup, stride_sorted. lia.
  - intros g. rewrite list_elem_of_bind. split.
    + intros (lane & Hg & Hlane). apply elem_of_range in Hlane.
      apply list_elem_of_In, stride_lane_member in Hg; [| assumption ..].
      rewrite list_elem_of_In, elem_of_stride by lia.
      split; [lia |]. apply Z.mod_1_r.
    + rewrite list_elem_of_In, elem_of_stride by lia. intros [Hg _].
      destruct (stride_lane_unique games parallel g HP Hg) as (lane & [Hlane Hin] & _).
      exists lane. split; [apply list_elem_of_In, Hin | apply elem_of_range, Hlane].
Qed.

End SortFacts.

Section MergeFacts.

Variables (host_arg : string) (out_dir : string).
Variables (my_mode_arg : string) (my_seconds_arg : string) (monte_seconds_arg : Z).
Variables (server_timeout_arg : Z) (wall_timeout_s : Z).
Variables (monitor : bool) (stream_server_log : bool).

Local Abbreviation run_game :=
  (run_one_game host_arg out_dir my_mode_arg my_seconds_arg monte_seconds_arg
     server_timeout_arg wall_timeout_s monitor stream_server_log).

Local Abbreviation loop_from :=
  (worker_loop_from host_arg out_dir my_mode_arg my_seconds_arg monte_seconds_arg
     server_timeout_arg wall_timeout_s monitor stream_server_log).

Local Abbreviation lane_loop :=
  (worker_loop host_arg out_dir my_mode_arg my_seconds_arg monte_seconds_arg
     server_timeout_arg wall_timeout_s monitor stream_server_log).

Local Abbreviation lane_run :=
  (run_lane host_arg out_dir my_mode_arg my_seconds_arg monte_seconds_arg
     server_timeout_arg wall_timeout_s monitor stream_server_log).

Local Abbreviation collect_rows :=
  (collect host_arg out_dir my_mode_arg my_seconds_arg monte_seconds_arg
     server_timeout_arg wall_timeout_s monitor stream_server_log).

Local Abbreviation merged :=
  (main_results host_arg out_dir my_mode_arg my_seconds_arg monte_seconds_arg
     server_timeout_arg wall_timeout_s monitor stream_server_log).

(** The vocabulary, at the arguments of the run. *)
Local Abbreviation server_log_of := (server_log_of out_dir).
Local Abbreviation my_log_of := (my_log_of out_dir).
Local Abbreviation ready_of := (ready_of out_dir).
Local Abbreviation got_end_of := (got_end_of out_dir wall_timeout_s).
Local Abbreviation path_of := (path_of out_dir wall_timeout_s).
Local Abbreviation tee_acts := (tee_acts stream_server_log).
Local Abbreviation path_acts := (path_acts stream_server_log).
Local Abbreviation path_winner := (path_winner out_dir).
Local Abbreviation result_row :=
  (result_row host_arg my_mode_arg my_seconds_arg monte_seconds_arg server_timeout_arg).
Local Abbreviation games_complete := (games_complete out_dir wall_timeout_s).
Local Abbreviation lane_rows :=
  (lane_rows host_arg out_dir my_mode_arg my_seconds_arg monte_seconds_arg
     server_timeout_arg wall_timeout_s monitor stream_server_log).

Lemma collect_rows_inv (fuel : nat) (lanes : Z -> LaneEnv) (games parallel port_base : Z)
    (completion : list Z) (acc res : list Row) :
  collect_rows fuel lanes games parallel port_base completion acc = Some res ->
  res = acc ++ (completion ≫= lane_rows fuel lanes games parallel port_base) /\
  Forall (fun lane => is_Some (lane_run fuel lanes games parallel port_base lane)) completion.
Proof.
  revert acc. induction completion as [|lane rest IH]; intros acc; cbn [collect].
  - intros [= <-]. rewrite app_nil_r. split; [reflexivity | constructor].
  - destruct (lane_run fuel lanes games parallel port_base lane) as [[rows tr]|] eqn:Hlane;
      [| discriminate].
    intros Hrest. destruct (IH _ Hrest) as [-> Hall]. split.
    + cbn. unfold lane_rows at 2. rewrite Hlane, app_assoc. reflexivity.
    + constructor; [rewrite Hlane; eauto | exact Hall].
Qed.

Lemma collect_rows_all (fuel : nat) (lanes : Z -> LaneEnv) (games parallel port_base : Z)
    (completion : list Z) (acc : list Row) :
  Forall (fun lane => is_Some (lane_run fuel lanes games parallel port_base lane)) completion ->
  collect_rows fuel lanes games parallel port_base completion acc =
    Some (acc ++ (completion ≫= lane_rows fuel lanes games parallel port_base)).
Proof.
  intros Hall. revert acc. induction Hall as [|lane rest [[rows tr] Hlane] _ IH]; intros acc.
  - cbn. rewrite app_nil_r. reflexivity.
  - cbn [collect]. rewrite Hlane, IH. cbn.
    unfold lane_rows at 2. rewrite Hlane, app_assoc. reflexivity.
Qed.

(** The games of the rows of a lane that returned: an initial part of its
    stride. *)
Lemma lane_rows_prefix (fuel : nat) (lanes : Z -> LaneEnv) (games parallel port_base lane : Z) :
  1 <= parallel ->
  map game (lane_rows fuel lanes games parallel port_base lane)
    `prefix_of` stride (lane + 1) parallel games.
Proof.
  intros HP. unfold lane_rows, run_lane.
  destruct (lane_loop fuel (lane_games (lanes lane)) lane games parallel port_base
              {| stop_in := lane_stop_in (lanes lane); trace := [] |})
    as [[rows w']|] eqn:Hloop; [| apply prefix_nil].
  unfold worker_loop in Hloop.
  destruct (loop_prefix host_arg out_dir my_mode_arg my_seconds_arg monte_seconds_arg
              server_timeout_arg wall_timeout_s monitor stream_server_log
              _ _ _ _ _ HP _ _ _ _ _ _ Hloop) as (rows' & -> & Hpre).
  exact Hpre.
Qed.

(** C1, as the code has it.  With [parallel >= 1] lanes and [games >= 0]
    games, in whatever order the lanes complete: when no lane sees the flag
    set, the sorted rows are for the games 1, 2, ..., [games], one row
    each; in every run, cancelled or not, the sorted rows have strictly
    ascending game indices (so none twice), all within [1, games]. *)
Theorem merged_rows_by_game (fuel : nat) (lanes : Z -> LaneEnv)
    (games parallel port_base : Z) (completion : list Z) :
  1 <= parallel -> 0 <= games -> completion ≡ₚ range parallel ->
  ((forall lane, 0 <= lane < parallel ->
      lane_stop_in (lanes lane) = None /\
      games_complete (lane_games (lanes lane)) lane games) ->
   (Z.to_nat games < fuel)%nat ->
   exists rows,
     merged fuel lanes games parallel port_base completion = Some rows /\
     map game rows = stride 1 1 games) /\
  (forall rows,
     merged fuel lanes games parallel port_base completion = Some rows ->
     StronglySorted Z.lt (map game rows) /\
     forall g, In g (map game rows) -> 1 <= g <= games).
Proof.
  intros HP HN Hperm.
  assert (Hin : forall lane, lane ∈ completion -> 0 <= lane < parallel).
  { intros lane Hl. rewrite Hperm in Hl. apply elem_of_range, Hl. }
  split.
  - intros Hlanes Hfuel.
    assert (Hfull : forall lane, lane ∈ completion ->
              is_Some (lane_run fuel lanes games parallel port_base lane) /\
              map game (lane_rows fuel lanes games parallel port_base lane)
                = stride (lane + 1) parallel games).
    { intros lane Hl. specialize (Hin lane Hl). destruct (Hlanes lane Hin) as [Hstop Hcomp].
      destruct (lane_uncancelled host_arg out_dir my_mode_arg my_seconds_arg
                  monte_seconds_arg server_timeout_arg wall_timeout_s monitor
                  stream_server_log (lane_games (lanes lane)) lane games parallel port_base
                  fuel {| stop_in := lane_stop_in (lanes lane); trace := [] |}
                  HP ltac:(lia) Hstop Hcomp Hfuel) as (rows & w' & Hloop & Hgames).
      unfold lane_rows, run_lane. rewrite Hloop. split; [eauto | exact Hgames]. }
    unfold main_results. rewrite collect_rows_all.
    2: { apply Forall_forall. intros lane Hl. apply Hfull, Hl. }
    eexists. split; [reflexivity |]. cbn [app].
    apply (StronglySorted_unique Z.le).
    + apply sorted_games.
    + apply strict_sorted_le, stride_sorted. lia.
    + rewrite sort_rows_perm, fmap_bind_games.
      rewrite (bind_ext_in _ (fun lane => stride (lane + 1) parallel games))
        by (intros lane Hl; apply Hfull, Hl).
      rewrite Hperm. apply strides_partition, HP.
  - intros rows Hrows. unfold main_results in Hrows.
    destruct (collect_rows fuel lanes games parallel port_base completion [])
      as [res|] eqn:Hcollect; [| discriminate].
    injection Hrows as <-. apply collect_rows_inv in Hcollect as [-> _]. cbn [app].
    set (f := lane_rows fuel lanes games parallel port_base).
    assert (Hmem : forall lane g, lane ∈ completion -> g ∈ map game (f lane) ->
              1 <= g <= games /\ (g - 1) mod parallel = lane).
    { intros lane g Hl Hg. specialize (Hin lane Hl).
      destruct (lane_rows_prefix fuel lanes games parallel port_base lane HP) as [k Hk].
      fold f in Hk.
      apply (stride_lane_member games parallel lane g HP Hin).
      rewrite Hk. apply in_or_app. left. apply list_elem_of_In, Hg. }
    assert (Hnd : NoDup (map game (completion ≫= f))).
    { rewrite fmap_bind_games. apply NoDup_bind.
      - intros x1 x2 y Hx1 Hx2 Hy1 Hy2.
        destruct (Hmem _ _ Hx1 Hy1) as [_ <-]. destruct (Hmem _ _ Hx2 Hy2) as [_ <-].
        reflexivity.
      - intros lane Hl.
        destruct (lane_rows_prefix fuel lanes games parallel port_base lane HP) as [k Hk].
        fold f in Hk.
        assert (Hs : NoDup (stride (lane + 1) parallel games))
          by (apply strict_sorted_nodup, stride_sorted, HP).
        rewrite Hk in Hs. apply NoDup_app in Hs as [Hs _]. exact Hs.
      - rewrite Hperm. apply range_nodup. }
    split.
    + apply sorted_nodup_strict; [apply sorted_games |].
      rewrite sort_rows_perm. exact Hnd.
    + intros g Hg. apply list_elem_of_In in Hg.
      rewrite sort_rows_perm, fmap_bind_games in Hg.
      apply list_elem_of_bind in Hg as (lane & Hg & Hl).
      apply (Hmem lane g Hl Hg).
Qed.

End MergeFacts.

(** Four games on two lanes, lane 1 completing before lane 0. *)
Lemma merged_rows_by_game_witness :
  exists rows,
    main_results "localhost" "out" "tt" "3.0" 10 12 1200 false true
      5 lanes_uncancelled 4 2 25033 [1; 0] = Some rows /\
    map game rows = [1; 2; 3; 4].
Proof.
  destruct (merged_rows_by_game "localhost" "out" "tt" "3.0" 10 12 1200 false true
              5 lanes_uncancelled 4 2 25033 [1; 0]) as [Hfull _].
  - lia.
  - lia.
  - apply Permutation_swap.
  - apply Hfull.
    + intros lane _. split; [reflexivity | apply env_timeout_complete].
    + vm_compute. lia.
Defined.

(** C1, as stated, fails: in a run of two games on one lane that is
    cancelled while game 1 is played, the result has a row for game 1 and
    none for game 2. *)
Lemma cancelled_run_misses_games :
  stride 1 1 2 = [1; 2] /\
  option_map (map game)
    (main_results "localhost" "out" "tt" "3.0" 10 12 1200 false true
       5 lanes_cancelled_midway 2 1 25033 [0])
  = Some [1].
Proof. split; vm_compute; reflexivity. Qed.

(* ===================================================================== *)
(** * Readiness: [wait_server_ready] and [wait_port]                      *)
(* ===================================================================== *)

Section Readiness.

Lemma wait_ready_loop_step (path : string) (deadline : Z) (p : Poll) (rest : list Poll) :
  wait_server_ready_loop path deadline (p :: rest) =
    if poll_clock p <? deadline then
      if saw_banner path p then Some true
      else wait_server_ready_loop path deadline rest
    else Some false.
Proof.
  unfold saw_banner. cbn [wait_server_ready_loop].
  destruct (poll_clock p <? deadline); [| reflexivity].
  destruct (poll_files p !! path) as [text|]; reflexivity.
Qed.

Lemma wait_ready_loop_skip (path : string) (deadline : Z) (before rest : list Poll) :
  banner_polled_in_vain path deadline before ->
  wait_server_ready_loop path deadline (before ++ rest) =
    wait_server_ready_loop path deadline rest.
Proof.
  induction 1 as [|q before [Hq Hs] _ IH]; [reflexivity |].
  rewrite <- app_comm_cons, wait_ready_loop_step, Hs.
  apply Z.ltb_lt in Hq. rewrite Hq. exact IH.
Qed.

Lemma wait_ready_loop_inv (path : string) (deadline : Z) (polls : list Poll) (b : bool) :
  wait_server_ready_loop path deadline polls = Some b ->
  exists before p rest,
    polls = before ++ p :: rest /\ banner_polled_in_vain path deadline before /\
    (if b then poll_clock p < deadline /\ saw_banner path p = true
     else deadline <= poll_clock p).
Proof.
  induction polls as [|q polls IH]; [discriminate |].
  rewrite wait_ready_loop_step.
  destruct (poll_clock q <? deadline) eqn:Hq.
  - apply Z.ltb_lt in Hq. destruct (saw_banner path q) eqn:Hs.
    + intros [= <-]. exists [], q, polls.
      split; [reflexivity |]. split; [constructor |]. split; assumption.
    + intros Hrest. destruct (IH Hrest) as (before & p & rest & -> & Hv & Hp).
      exists (q :: before), p, rest.
      split; [reflexivity |]. split; [| assumption].
      constructor; [split |]; assumption.
  - apply Z.ltb_ge in Hq. intros [= <-].
    exists [], q, polls.
    split; [reflexivity |]. split; [constructor | assumption].
Qed.

Lemma wait_ready_loop_total (path : string) (deadline : Z) (polls : list Poll) :
  Exists (fun p => deadline <= poll_clock p) polls ->
  is_Some (wait_server_ready_loop path deadline polls).
Proof.
  induction 1 as [p rest Hp | p rest _ IH]; rewrite wait_ready_loop_step.
  - apply Z.ltb_ge in Hp. rewrite Hp. eauto.
  - destruct (poll_clock p <? deadline); [| eauto].
    destruct (saw_banner path p); eauto.
Qed.

(** X1.  [wait_server_ready] returns [True] exactly when some poll made
    before the deadline, after polls that were all made before the deadline
    and found no banner, finds the log present with both "Othello Server"
    and "tcp port:" in its text; it returns [False] exactly when the clock
    reaches the deadline after polls that found no banner; and it returns
    once the clock has reached the deadline.  A missing log, and a log with
    only one of the two markers, count as no banner. *)
Theorem wait_server_ready_spec (path : string) (timeout_ms start : Z) (polls : list Poll) :
  (wait_server_ready path timeout_ms start polls = Some true <->
     exists before p rest,
       polls = before ++ p :: rest /\
       banner_polled_in_vain path (start + timeout_ms) before /\
       poll_clock p < start + timeout_ms /\ saw_banner path p = true) /\
  (wait_server_ready path timeout_ms start polls = Some false <->
     exists before p rest,
       polls = before ++ p :: rest /\
       banner_polled_in_vain path (start + timeout_ms) before /\
       start + timeout_ms <= poll_clock p) /\
  (Exists (fun p => start + timeout_ms <= poll_clock p) polls ->
     is_Some (wait_server_ready path timeout_ms start polls)) /\
  (forall p, poll_files p !! path = None -> saw_banner path p = false) /\
  (forall p text, poll_files p !! path = Some text ->
     PyStr.contains "Othello Server" text = false \/ PyStr.contains "tcp port:" text = false ->
     saw_banner path p = false).
Proof.
  unfold wait_server_ready. split; [| split; [| split; [| split]]].
  - split.
    + intros Hr. destruct (wait_ready_loop_inv _ _ _ _ Hr) as (before & p & rest & Hp & Hv & Hb).
      exists before, p, rest. tauto.
    + intros (before & p & rest & -> & Hv & Hc & Hs).
      rewrite wait_ready_loop_skip by assumption.
      rewrite wait_ready_loop_step, Hs. apply Z.ltb_lt in Hc. rewrite Hc. reflexivity.
  - split.
    + intros Hr. destruct (wait_ready_loop_inv _ _ _ _ Hr) as (before & p & rest & Hp & Hv & Hb).
      exists before, p, rest. tauto.
    + intros (before & p & rest & -> & Hv & Hc).
      rewrite wait_ready_loop_skip by assumption.
      rewrite wait_ready_loop_step. apply Z.ltb_ge in Hc. rewrite Hc. reflexivity.
  - apply wait_ready_loop_total.
  - intros p Hp. unfold saw_banner. rewrite Hp. reflexivity.
  - intros p text Hp Hmiss. unfold saw_banner. rewrite Hp.
    destruct Hmiss as [-> | ->]; [reflexivity | apply andb_false_r].
Qed.

(** The log is missing at first, then holds the first marker only, then
    both. *)
Lemma wait_server_ready_spec_witness :
  wait_server_ready "out/server_w0_g1.log" 12000 0
    [ {| poll_clock := 0; poll_files := ∅ |};
      {| poll_clock := 100; poll_files := {[ "out/server_w0_g1.log" := "Othello Server" ]} |};
      {| poll_clock := 200;
         poll_files := {[ "out/server_w0_g1.log" :=
                            "Othello Server" +:+ LF +:+ "tcp port: 25033" +:+ LF ]} |} ]
  = Some true.
Proof.
  apply (wait_server_ready_spec "out/server_w0_g1.log" 12000 0).
  exists [ {| poll_clock := 0; poll_files := ∅ |};
           {| poll_clock := 100;
              poll_files := {[ "out/server_w0_g1.log" := "Othello Server" ]} |} ],
    {| poll_clock := 200;
       poll_files := {[ "out/server_w0_g1.log" :=
                          "Othello Server" +:+ LF +:+ "tcp port: 25033" +:+ LF ]} |}, [].
  split; [reflexivity |]. split; [| split; [simpl; lia | reflexivity]].
  constructor; [split; [simpl; lia | reflexivity] |].
  constructor; [split; [simpl; lia | reflexivity] | constructor].
Defined.

Lemma wait_port_loop_step (host : string) (port deadline : Z) (p : Probe) (rest : list Probe) :
  wait_port_loop host port deadline (p :: rest) =
    if probe_clock p <? deadline then
      if probe_accepts p host port then Some true
      else wait_port_loop host port deadline rest
    else Some false.
Proof. reflexivity. Qed.

Lemma wait_port_loop_skip (host : string) (port deadline : Z) (before rest : list Probe) :
  probed_in_vain host port deadline before ->
  wait_port_loop host port deadline (before ++ rest) = wait_port_loop host port deadline rest.
Proof.
  induction 1 as [|q before [Hq Hs] _ IH]; [reflexivity |].
  rewrite <- app_comm_cons, wait_port_loop_step, Hs.
  apply Z.ltb_lt in Hq. rewrite Hq. exact IH.
Qed.

Lemma wait_port_loop_inv (host : string) (port deadline : Z) (probes : list Probe) (b : bool) :
  wait_port_loop host port deadline probes = Some b ->
  exists before p rest,
    probes = before ++ p :: rest /\ probed_in_vain host port deadline before /\
    (if b then probe_clock p < deadline /\ probe_accepts p host port = true
     else deadline <= probe_clock p).
Proof.
  induction probes as [|q probes IH]; [discriminate |].
  rewrite wait_port_loop_step.
  destruct (probe_clock q <? deadline) eqn:Hq.
  - apply Z.ltb_lt in Hq. destruct (probe_accepts q host port) eqn:Hs.
    + intros [= <-]. exists [], q, probes.
      split; [reflexivity |]. split; [constructor |]. split; assumption.
    + intros Hrest. destruct (IH Hrest) as (before & p & rest & -> & Hv & Hp).
      exists (q :: before), p, rest.
      split; [reflexivity |]. split; [| assumption].
      constructor; [split |]; assumption.
  - apply Z.ltb_ge in Hq. intros [= <-].
    exists [], q, probes.
    split; [reflexivity |]. split; [constructor | assumption].
Qed.

(** X2.  [wait_port] returns [True] exactly when a connection attempt made
    before the deadline succeeds, every earlier attempt having been made
    before the deadline and refused; it returns [False] exactly when the
    clock reaches the deadline after attempts that were all refused; with a
    timeout that is not positive and a clock that does not run backwards it
    returns [False] without trying to connect, even to an address that
    accepts. *)
Theorem wait_port_spec (host : string) (port timeout_ms start : Z) (probes : list Probe) :
  (wait_port host port timeout_ms start probes = Some true <->
     exists before p rest,
       probes = before ++ p :: rest /\
       probed_in_vain host port (start + timeout_ms) before /\
       probe_clock p < start + timeout_ms /\ probe_accepts p host port = true) /\
  (wait_port host port timeout_ms start probes = Some false <->
     exists before p rest,
       probes = before ++ p :: rest /\
       probed_in_vain host port (start + timeout_ms) before /\
       start + timeout_ms <= probe_clock p) /\
  (forall p rest, probes = p :: rest -> timeout_ms <= 0 -> start <= probe_clock p ->
     wait_port host port timeout_ms start probes = Some false).
Proof.
  unfold wait_port. split; [| split].
  - split.
    + intros Hr. destruct (wait_port_loop_inv _ _ _ _ _ Hr) as (before & p & rest & Hp & Hv & Hb).
      exists before, p, rest. tauto.
    + intros (before & p & rest & -> & Hv & Hc & Hs).
      rewrite wait_port_loop_skip by assumption.
      rewrite wait_port_loop_step, Hs. apply Z.ltb_lt in Hc. rewrite Hc. reflexivity.
  - split.
    + intros Hr. destruct (wait_port_loop_inv _ _ _ _ _ Hr) as (before & p & rest & Hp & Hv & Hb).
      exists before, p, rest. tauto.
    + intros (before & p & rest & -> & Hv & Hc).
      rewrite wait_port_loop_skip by assumption.
      rewrite wait_port_loop_step. apply Z.ltb_ge in Hc. rewrite Hc. reflexivity.
  - intros p rest -> Ht Hc. rewrite wait_port_loop_step.
    assert (Hge : (probe_clock p <? start + timeout_ms) = false) by (apply Z.ltb_ge; lia).
    rewrite Hge. reflexivity.
Qed.

(** Nothing listens at the first attempt; the server does at the second. *)
Lemma wait_port_spec_witness :
  wait_port "localhost" 25033 12000 0
    [ {| probe_clock := 0; probe_accepts := fun _ _ => false |};
      {| probe_clock := 100; probe_accepts := fun _ port => port =? 25033 |} ] = Some true /\
  wait_port "localhost" 25033 0 50
    [ {| probe_clock := 50; probe_accepts := fun _ _ => true |} ] = Some false.
Proof.
  split.
  - apply (wait_port_spec "localhost" 25033 12000 0).
    exists [ {| probe_clock := 0; probe_accepts := fun _ _ => false |} ],
      {| probe_clock := 100; probe_accepts := fun _ port => port =? 25033 |}, [].
    split; [reflexivity |]. split; [| split; [simpl; lia | reflexivity]].
    constructor; [split; [simpl; lia | reflexivity] | constructor].
  - destruct (wait_port_spec "localhost" 25033 0 50
                [ {| probe_clock := 50; probe_accepts := fun _ _ => true |} ])
      as (_ & _ & Hzero).
    apply (Hzero {| probe_clock := 50; probe_accepts := fun _ _ => true |} []);
      [reflexivity | lia | simpl; lia].
Defined.

End Readiness.

(* ===================================================================== *)
(** * The tee thread                                                      *)
(* ===================================================================== *)

Section Tee.

Lemma tee_line_files (log_path prefix : string) (s : TeeState) (line : string) :
  tee_files (tee_line log_path prefix s line) =
    <[log_path := default EmptyString (tee_files s !! log_path) +:+ line]> (tee_files s).
Proof.
  unfold tee_line, tee_is_set, tee_write, tee_print. cbn.
  destruct (tee_stop_in s) as [[|k]|]; reflexivity.
Qed.

Lemma tee_fold_files (log_path prefix : string) (stdout : list string) (s : TeeState) :
  tee_files (fold_left (tee_line log_path prefix) stdout s) !! log_path =
    match stdout with
    | [] => tee_files s !! log_path
    | _ => Some (default EmptyString (tee_files s !! log_path)
                 +:+ String.concat EmptyString stdout)
    end /\
  forall other, other <> log_path ->
    tee_files (fold_left (tee_line log_path prefix) stdout s) !! other = tee_files s !! other.
Proof.
  revert s. induction stdout as [|line rest IH]; intros s; [split; reflexivity |].
  cbn [fold_left]. destruct (IH (tee_line log_path prefix s line)) as [Hlog Hother].
  split.
  - rewrite Hlog. destruct rest as [|line' rest'].
    + rewrite tee_line_files, lookup_insert_eq. reflexivity.
    + rewrite tee_line_files, lookup_insert_eq. cbn [default].
      change (String.concat EmptyString (line :: line' :: rest'))
        with (line +:+ String.concat EmptyString (line' :: rest')).
      unfold id. rewrite append_assoc. reflexivity.
  - intros other Hne. rewrite (Hother other Hne), tee_line_files.
    apply lookup_insert_ne. congruence.
Qed.

Lemma tee_log_text (stdout : list string) (log_path prefix : string) (s : TeeState) :
  tee_files (tee_lines stdout log_path prefix s) !! log_path
    = Some (String.concat EmptyString stdout).
Proof.
  unfold tee_lines.
  destruct (tee_fold_files log_path prefix stdout (tee_open log_path s)) as [Hlog _].
  rewrite Hlog. unfold tee_open. cbn [tee_files]. rewrite lookup_insert_eq.
  destruct stdout; reflexivity.
Qed.

(** X3.  When [tee_lines] returns, the log file holds exactly the lines the
    process wrote, in order, whatever the file held before and whether or
    not the run was cancelled meanwhile; a process that wrote nothing
    leaves an empty file; no other file is changed. *)
Theorem tee_lines_log (stdout : list string) (log_path prefix : string) (s : TeeState) :
  tee_files (tee_lines stdout log_path prefix s) !! log_path
    = Some (String.concat EmptyString stdout) /\
  forall other, other <> log_path ->
    tee_files (tee_lines stdout log_path prefix s) !! other = tee_files s !! other.
Proof.
  split; [apply tee_log_text |].
  unfold tee_lines.
  destruct (tee_fold_files log_path prefix stdout (tee_open log_path s)) as [_ Hother].
  intros other Hne. rewrite (Hother other Hne). unfold tee_open. cbn [tee_files].
  apply lookup_insert_ne. congruence.
Qed.

Lemma tee_lines_log_witness :
  tee_files
    (tee_lines ["Othello Server" +:+ LF; "tcp port: 25033" +:+ LF] "out/server_w0_g1.log"
       "[S w0 g1] "
       {| tee_files := {[ "out/server_w0_g1.log" := "old"; "out/my_w0_g1.log" := "kept" ]};
          tee_console := []; tee_stop_in := Some 1%nat |})
    !! "out/my_w0_g1.log" = Some "kept".
Proof.
  destruct (tee_lines_log ["Othello Server" +:+ LF; "tcp port: 25033" +:+ LF]
              "out/server_w0_g1.log" "[S w0 g1] "
              {| tee_files := {[ "out/server_w0_g1.log" := "old"; "out/my_w0_g1.log" := "kept" ]};
                 tee_console := []; tee_stop_in := Some 1%nat |}) as [_ Hother].
  rewrite (Hother "out/my_w0_g1.log"); [reflexivity | discriminate].
Defined.

Lemma tee_fold_console (log_path prefix : string) (stdout : list string) (s : TeeState) :
  tee_console (fold_left (tee_line log_path prefix) stdout s) =
    tee_console s ++ map (String.append prefix) (echoed (tee_stop_in s) stdout).
Proof.
  revert s. induction stdout as [|line rest IH]; intros s.
  - cbn. destruct (tee_stop_in s) as [[|k]|]; cbn; rewrite app_nil_r; reflexivity.
  - cbn [fold_left]. rewrite IH. unfold tee_line, tee_is_set, tee_write, tee_print, echoed.
    cbn. destruct (tee_stop_in s) as [[|k]|]; cbn.
    + destruct rest; cbn; reflexivity.
    + rewrite <- app_assoc. reflexivity.
    + rewrite <- app_assoc. reflexivity.
Qed.

(** X4.  [tee_lines] echoes on the console, each with the prefix, the lines
    it read while the flag was not set, in order: all the lines in a run
    that is never cancelled, and only the first [k] lines when the flag is
    set after [k] lines; from then on it echoes nothing, and still writes
    every line to the log. *)
Theorem tee_lines_console (stdout : list string) (log_path prefix : string) (s : TeeState) :
  tee_console (tee_lines stdout log_path prefix s) =
    tee_console s ++ map (String.append prefix) (echoed (tee_stop_in s) stdout) /\
  (tee_stop_in s = Some O -> tee_console (tee_lines stdout log_path prefix s) = tee_console s) /\
  tee_files (tee_lines stdout log_path prefix s) !! log_path
    = Some (String.concat EmptyString stdout).
Proof.
  split; [| split].
  - unfold tee_lines. rewrite tee_fold_console. reflexivity.
  - intros Hstop. unfold tee_lines. rewrite tee_fold_console. cbn [tee_open tee_stop_in tee_console].
    rewrite Hstop. cbn. rewrite take_0. apply app_nil_r.
  - apply tee_log_text.
Qed.

Lemma tee_lines_console_witness :
  tee_console
    (tee_lines ["a" +:+ LF; "b" +:+ LF; "c" +:+ LF] "out/server_w0_g1.log" "[S w0 g1] "
       {| tee_files := ∅; tee_console := ["earlier"]; tee_stop_in := Some O |})
  = ["earlier"].
Proof.
  apply (tee_lines_console ["a" +:+ LF; "b" +:+ LF; "c" +:+ LF] "out/server_w0_g1.log"
           "[S w0 g1] "
           {| tee_files := ∅; tee_console := ["earlier"]; tee_stop_in := Some O |}).
  reflexivity.
Defined.

End Tee.

(* ===================================================================== *)
(** * What [kill_tree] leaves behind                                      *)
(* ===================================================================== *)

Section Escalation.




End Escalation.

(* ===================================================================== *)
(** * More on the match runner                                            *)
(* ===================================================================== *)

Section Winners.

Lemma classify_end_line_range (line : string) :
  In (classify_end_line line) [my; monte; draw; unknown].
Proof.
  unfold classify_end_line.
  destruct (PyStr.contains " win." line); [simpl; tauto |].
  destruct (PyStr.contains " lose." line); [simpl; tauto |].
  destruct (PyStr.contains "draw" (PyStr.lower line)); simpl; tauto.
Qed.

(** The classification of a log is never [stopped] nor [server_no_port]. *)
Lemma parse_winner_range (fs : FS) (path : string) :
  In (parse_winner_from_log fs path) [my; monte; draw; unknown; no_end; no_log].
Proof.
  unfold parse_winner_from_log. destruct (fs !! path) as [text|]; [| simpl; tauto].
  unfold parse_winner_from_text. rewrite scan_lines_last.
  destruct (last (List.filter (PyStr.startswith END_MARKER) (PyStr.splitlines text)))
    as [l|]; [| simpl; tauto].
  pose proof (classify_end_line_range l) as H. simpl in H |- *. tauto.
Qed.

End Winners.

Section RunnerMore.

Variables (host_arg : string) (out_dir : string).
Variables (my_mode_arg : string) (my_seconds_arg : string) (monte_seconds_arg : Z).
Variables (server_timeout_arg : Z) (wall_timeout_s : Z).
Variables (monitor : bool) (stream_server_log : bool).

Local Abbreviation run_game :=
  (run_one_game host_arg out_dir my_mode_arg my_seconds_arg monte_seconds_arg
     server_timeout_arg wall_timeout_s monitor stream_server_log).

Local Abbreviation started :=
  (run_one_game_started host_arg out_dir my_mode_arg my_seconds_arg monte_seconds_arg
     server_timeout_arg wall_timeout_s monitor stream_server_log).

Local Abbreviation stopped_run :=
  (run_one_game_stopped host_arg out_dir my_mode_arg my_seconds_arg monte_seconds_arg
     server_timeout_arg wall_timeout_s monitor stream_server_log).

Local Abbreviation ready_of := (ready_of out_dir).
Local Abbreviation got_end_of := (got_end_of out_dir wall_timeout_s).
Local Abbreviation path_of := (path_of out_dir wall_timeout_s).
Local Abbreviation tee_acts := (tee_acts stream_server_log).
Local Abbreviation path_acts := (path_acts stream_server_log).
Local Abbreviation path_winner := (path_winner out_dir).
Local Abbreviation my_log_of := (my_log_of out_dir).
Local Abbreviation result_row :=
  (result_row host_arg my_mode_arg my_seconds_arg monte_seconds_arg server_timeout_arg).

(** What a game does is settled by the first read of the flag: from any
    two worlds in which that read finds the flag unset it gives the same
    row and the same events. *)
Lemma run_one_game_frame (env : GameEnv) (g worker port : Z) (w : World) :
  stop_in w <> Some O ->
  run_game env g worker port w =
    match run_game env g worker port fresh_world with
    | Some (row, w0) => Some (row, add_events (after_read w) (trace w0))
    | None => None
    end.
Proof.
  intros Hw. unfold run_one_game.
  unfold bind at 1. rewrite (is_set_unset _ Hw).
  generalize (after_read w) as w0. intros w0.
  unfold try_finally, bind, when, observe, ret.
  destruct (wait_server_ready _ _ _ _) as [[|]|];
    [destruct (wait_end_in_log _ _ _ _) as [[|]|] | |].
  - destruct stream_server_log, (g mod 2 =? 1);
      repeat (progress (cbn -[app wait_short]; rewrite ?wait_short_run));
      destruct (my_wait env), (monte_wait env);
      cbn -[app]; unfold add_events; cbn -[app]; rewrite <- !app_assoc; reflexivity.
  - destruct stream_server_log, (g mod 2 =? 1);
      cbn -[app]; unfold add_events; cbn -[app]; rewrite <- !app_assoc; reflexivity.
  - destruct stream_server_log, (g mod 2 =? 1); reflexivity.
  - destruct stream_server_log;
      cbn -[app]; unfold add_events; cbn -[app]; rewrite <- !app_assoc; reflexivity.
  - destruct stream_server_log; reflexivity.
Qed.

(** The row of a game, whatever its path. *)
Lemma run_one_game_row (env : GameEnv) (g worker port : Z) (w w' : World) (row : Row) :
  run_game env g worker port w = Some (row, w') ->
  (stop_in w = Some O /\ w' = w /\ row = result_row g worker port stopped (130, 130)) \/
  (stop_in w <> Some O /\
   exists p evs,
     path_of env worker g = Some p /\ p <> PathStopped /\
     w' = add_events (after_read w) evs /\
     map act_of evs = path_acts g p /\
     row = result_row g worker port (path_winner env worker g p) (path_exits p)).
Proof.
  intros Hrun. destruct (decide (stop_in w = Some O)) as [Hw | Hw].
  - left. rewrite (stopped_run _ _ _ _ _ Hw) in Hrun. injection Hrun as <- <-. auto.
  - right. split; [exact Hw |].
    pose proof (started env g worker port w Hw) as Hst.
    destruct (path_of env worker g) as [p|] eqn:Hp; [| congruence].
    destruct Hst as (evs & Hrun' & Hacts & _). rewrite Hrun' in Hrun.
    injection Hrun as <- <-. exists p, evs.
    split; [reflexivity |]. split; [eapply path_of_started; exact Hp |]. auto.
Qed.

Lemma path_of_cases (env : GameEnv) (worker g : Z) (p : GamePath) :
  path_of env worker g = Some p ->
  (p = PathNoPort /\ ready_of env worker g = Some false) \/
  (p = PathNoEnd /\ ready_of env worker g = Some true /\ got_end_of env worker g = Some false) \/
  (p = PathEnd (my_wait env) (monte_wait env) /\
   ready_of env worker g = Some true /\ got_end_of env worker g = Some true).
Proof.
  unfold path_of. destruct (ready_of env worker g) as [[|]|];
    [destruct (got_end_of env worker g) as [[|]|] | |]; intros [= <-]; auto.
Qed.

(** X6.  The connect order of a game follows the parity of its index: odd
    games are [my-first], even games [monte-first], so the next game always
    has the other order.  In a game whose server got ready, the players are
    started right after the server (and its tee thread), in that order,
    with the pause between them: the benchmarked client first in odd games,
    the opponent first in even games. *)
Theorem connect_order_by_parity (env : GameEnv) (g worker port : Z) (w w' : World) (row : Row) :
  run_game env g worker port w = Some (row, w') ->
  (connect_order row = my_first <-> g mod 2 = 1) /\
  (connect_order row = monte_first <-> g mod 2 = 0) /\
  (forall env2 w2 w2' row2,
     run_game env2 (g + 1) worker port w2 = Some (row2, w2') ->
     connect_order row2 <> connect_order row) /\
  (stop_in w <> Some O -> ready_of env worker g = Some true ->
   exists evs post,
     w' = add_events (after_read w) evs /\
     map act_of evs =
       (ASpawn Server :: tee_acts) ++
       (if g mod 2 =? 1 then [ASpawn MyClient; ASleep; ASpawn MonteClient]
        else [ASpawn MonteClient; ASleep; ASpawn MyClient]) ++ post).
Proof.
  intros Hrun.
  assert (Horder : forall e g' w1 w1' r,
            run_game e g' worker port w1 = Some (r, w1') ->
            connect_order r = if g' mod 2 =? 1 then my_first else monte_first).
  { intros e g' w1 w1' r Hr.
    destruct (run_one_game_row _ _ _ _ _ _ _ Hr)
      as [(_ & _ & ->) | (_ & p & evs & _ & _ & _ & _ & ->)]; reflexivity. }
  pose proof (Z.mod_pos_bound g 2 ltac:(lia)) as Hbound.
  rewrite (Horder _ _ _ _ _ Hrun).
  split; [| split; [| split]].
  - destruct (Z.eqb_spec (g mod 2) 1); split; (congruence || lia).
  - destruct (Z.eqb_spec (g mod 2) 1); split; (congruence || lia).
  - intros env2 w2 w2' row2 Hrun2. rewrite (Horder _ _ _ _ _ Hrun2).
    assert (Hnext : (g + 1) mod 2 = 1 - g mod 2).
    { rewrite Z.add_mod by lia.
      assert (Hc : g mod 2 = 0 \/ g mod 2 = 1) by lia.
      destruct Hc as [-> | ->]; reflexivity. }
    destruct (Z.eqb_spec (g mod 2) 1), (Z.eqb_spec ((g + 1) mod 2) 1);
      (congruence || lia).
  - intros Hw Hready.
    destruct (run_one_game_row _ _ _ _ _ _ _ Hrun)
      as [(Hstop & _) | (_ & p & evs & Hp & _ & Hw' & Hacts & _)]; [contradiction |].
    destruct (path_of_cases _ _ _ _ Hp)
      as [(_ & Hr) | [(-> & _ & _) | (-> & _ & _)]]; [congruence | |].
    + exists evs. eexists. split; [exact Hw' |]. rewrite Hacts.
      unfold path_acts, client_acts. cbn [app].
      destruct (g mod 2 =? 1); reflexivity.
    + exists evs. eexists. split; [exact Hw' |]. rewrite Hacts.
      unfold path_acts, client_acts. cbn [app].
      destruct (g mod 2 =? 1); reflexivity.
Qed.

(** X7.  The [winner] column tells how a game left the runner: it is
    [stopped] exactly when the runner found the flag set, and then nothing
    was done and both exit codes are 130; it is [server_no_port] exactly
    when the game was started and [wait_server_ready] returned [False], and
    then both exit codes are 124; and it is one of [my], [monte], [draw],
    [unknown], [no_log] only when the server got ready and "END " was seen
    in the log of the benchmarked client. *)
Theorem winner_tells_path (env : GameEnv) (g worker port : Z) (w w' : World) (row : Row) :
  run_game env g worker port w = Some (row, w') ->
  (winner row = stopped <-> stop_in w = Some O) /\
  (winner row = server_no_port <->
     stop_in w <> Some O /\ ready_of env worker g = Some false) /\
  (winner row = stopped -> my_exit row = 130 /\ monte_exit row = 130 /\ w' = w) /\
  (winner row = server_no_port -> my_exit row = 124 /\ monte_exit row = 124) /\
  (In (winner row) [my; monte; draw; unknown; no_log] ->
     stop_in w <> Some O /\ ready_of env worker g = Some true /\
     got_end_of env worker g = Some true).
Proof.
  intros Hrun.
  destruct (run_one_game_row _ _ _ _ _ _ _ Hrun)
    as [(Hstop & -> & ->) | (Hw & p & evs & Hp & Hne & -> & _ & ->)].
  - cbn [winner result_row my_exit monte_exit fst snd].
    split; [tauto |]. split; [split; [discriminate | tauto] |].
    split; [auto |]. split; [discriminate |].
    simpl. intros [H | [H | [H | [H | [H | []]]]]]; discriminate.
  - pose proof (parse_winner_range (final_files env) (my_log_of worker g)) as Hrange.
    destruct (path_of_cases _ _ _ _ Hp)
      as [(-> & Hr) | [(-> & Hr & He) | (-> & Hr & He)]].
    + cbn. rewrite Hr.
      split; [split; [discriminate | contradiction] |].
      split; [split; auto |]. split; [discriminate |]. split; [auto |].
      intros [H | [H | [H | [H | [H | []]]]]]; discriminate.
    + cbn. rewrite Hr.
      split; [split; [discriminate | contradiction] |].
      split; [split; [discriminate | intros [_ [=]]] |].
      split; [discriminate |]. split; [discriminate |].
      intros [H | [H | [H | [H | [H | []]]]]]; discriminate.
    + cbn -[parse_winner_from_log In]. rewrite Hr.
      assert (Hns : parse_winner_from_log (final_files env) (my_log_of worker g) <> stopped)
        by (intros E; rewrite E in Hrange; simpl in Hrange; intuition discriminate).
      assert (Hnp : parse_winner_from_log (final_files env) (my_log_of worker g)
                    <> server_no_port)
        by (intros E; rewrite E in Hrange; simpl in Hrange; intuition discriminate).
      split; [split; [contradiction | contradiction] |].
      split; [split; [contradiction | intros [_ [=]]] |].
      split; [contradiction |]. split; [contradiction |].
      intros _. auto.
Qed.

(** X8.  A game that has been started is played to its own end whatever the
    flag does meanwhile: the runner reads the flag once, and from every
    world in which that read finds the flag unset the game gives the same
    row and the same events. *)
Theorem started_game_ignores_flag
    (env : GameEnv) (g worker port : Z) (w1 w2 w1' : World) (row : Row) :
  stop_in w1 <> Some O -> stop_in w2 <> Some O ->
  run_game env g worker port w1 = Some (row, w1') ->
  exists evs,
    w1' = add_events (after_read w1) evs /\
    run_game env g worker port w2 = Some (row, add_events (after_read w2) evs).
Proof.
  intros H1 H2 Hrun.
  rewrite (run_one_game_frame env g worker port w1 H1) in Hrun.
  rewrite (run_one_game_frame env g worker port w2 H2).
  destruct (run_game env g worker port fresh_world) as [[row0 w0]|]; [| discriminate].
  injection Hrun as <- <-. exists (trace w0). split; reflexivity.
Qed.

(** X9.  With a wall timeout that is not positive (and a clock that does
    not run backwards), a game whose server got ready is given no time: it
    is reported [no_end] with both exit codes 124 and [kill_tree] runs on
    both players and on the server, whatever the log of the client holds,
    even "END ". *)
Theorem no_wall_time_no_end
    (env : GameEnv) (g worker port : Z) (w : World) (p : Poll) (rest : list Poll) :
  stop_in w <> Some O -> ready_of env worker g = Some true ->
  wall_timeout_s <= 0 -> end_polls env = p :: rest -> end_start env <= poll_clock p ->
  exists evs,
    run_game env g worker port w =
      Some (result_row g worker port no_end (124, 124), add_events (after_read w) evs) /\
    kills MyClient evs = 1%nat /\ kills MonteClient evs = 1%nat /\
    kills Server evs = 1%nat.
Proof.
  intros Hw Hready Hwall Hpolls Hclock.
  assert (Hend : got_end_of env worker g = Some false).
  { unfold got_end_of, wait_end_in_log. rewrite Hpolls, wait_end_loop_step.
    assert (Hge : (poll_clock p <? end_start env + 1000 * wall_timeout_s) = false)
      by (apply Z.ltb_ge; lia).
    rewrite Hge. reflexivity. }
  pose proof (started env g worker port w Hw) as Hst.
  unfold path_of in Hst. rewrite Hready, Hend in Hst.
  destruct Hst as (evs & Hrun & Hacts & _).
  exists evs. split; [exact Hrun |].
  unfold kills. rewrite Hacts. unfold path_acts, tee_acts, client_acts.
  destruct stream_server_log, (g mod 2 =? 1); repeat split; reflexivity.
Qed.

End RunnerMore.

Lemma connect_order_by_parity_witness :
  exists row w',
    run_one_game "localhost" "out" "tt" "3.0" 10 12 1200 false true
      env_game_won 1 0 25033 fresh_world = Some (row, w') /\
    connect_order row = my_first.
Proof.
  destruct (run_one_game "localhost" "out" "tt" "3.0" 10 12 1200 false true
              env_game_won 1 0 25033 fresh_world) as [[row w']|] eqn:Hrun.
  - exists row, w'. split; [reflexivity |].
    apply (connect_order_by_parity "localhost" "out" "tt" "3.0" 10 12 1200 false true
             env_game_won 1 0 25033 fresh_world w' row Hrun).
    reflexivity.
  - vm_compute in Hrun. discriminate Hrun.
Defined.

(** The game of [env_never_ready], started: its row says [server_no_port]. *)
Lemma winner_tells_path_witness :
  exists row w',
    run_one_game "localhost" "out" "tt" "3.0" 10 12 1200 false true
      env_never_ready 1 0 25033 fresh_world = Some (row, w') /\
    winner row = server_no_port.
Proof.
  destruct (run_one_game "localhost" "out" "tt" "3.0" 10 12 1200 false true
              env_never_ready 1 0 25033 fresh_world) as [[row w']|] eqn:Hrun.
  - exists row, w'. split; [reflexivity |].
    destruct (winner_tells_path "localhost" "out" "tt" "3.0" 10 12 1200 false true
                env_never_ready 1 0 25033 fresh_world w' row Hrun) as (_ & Hnp & _).
    apply Hnp. split; [discriminate | reflexivity].
  - vm_compute in Hrun. discriminate Hrun.
Defined.

(** The game of [env_game_won] in a lane that is cancelled right after the
    game has started is the game it is in a lane that is never cancelled. *)
Lemma started_game_ignores_flag_witness :
  exists row w1' evs,
    run_one_game "localhost" "out" "tt" "3.0" 10 12 1200 false true
      env_game_won 1 0 25033 fresh_world = Some (row, w1') /\
    winner row = my /\
    run_one_game "localhost" "out" "tt" "3.0" 10 12 1200 false true
      env_game_won 1 0 25033 {| stop_in := Some 1%nat; trace := [] |}
    = Some (row, add_events {| stop_in := Some O; trace := [] |} evs).
Proof.
  destruct (run_one_game "localhost" "out" "tt" "3.0" 10 12 1200 false true
              env_game_won 1 0 25033 fresh_world) as [[row w1']|] eqn:Hrun.
  - destruct (started_game_ignores_flag "localhost" "out" "tt" "3.0" 10 12 1200 false true
                env_game_won 1 0 25033 fresh_world {| stop_in := Some 1%nat; trace := [] |}
                w1' row) as (evs & _ & Hrun2); [discriminate | discriminate | exact Hrun |].
    exists row, w1', evs. split; [reflexivity |]. split; [| exact Hrun2].
    vm_compute in Hrun. injection Hrun as <- _. reflexivity.
  - vm_compute in Hrun. discriminate Hrun.
Defined.

(** The log of the client already holds "END " when the wait starts, and
    the wall timeout is 0. *)
Lemma no_wall_time_no_end_witness :
  exists evs,
    run_one_game "localhost" "out" "tt" "3.0" 10 12 0 false true
      env_game_won 1 0 25033 fresh_world
    = Some (result_row "localhost" "tt" "3.0" 10 12 1 0 25033 no_end (124, 124),
            add_events (after_read fresh_world) evs) /\
    kills MyClient evs = 1%nat /\ kills MonteClient evs = 1%nat /\
    kills Server evs = 1%nat.
Proof.
  apply (no_wall_time_no_end "localhost" "out" "tt" "3.0" 10 12 0 false true
           env_game_won 1 0 25033 fresh_world
           {| poll_clock := 300; poll_files := ∅ |}
           [ {| poll_clock := 400;
                poll_files := {[ "out/my_w0_g1.log" :=
                                   "START" +:+ LF +:+ "END p1 win." +:+ LF ]} |} ]).
  - discriminate.
  - reflexivity.
  - lia.
  - reflexivity.
  - simpl. lia.
Defined.

(* ===================================================================== *)
(** * More on the worker lane                                             *)
(* ===================================================================== *)

Section LaneMore.

Variables (host_arg : string) (out_dir : string).
Variables (my_mode_arg : string) (my_seconds_arg : string) (monte_seconds_arg : Z).
Variables (server_timeout_arg : Z) (wall_timeout_s : Z).
Variables (monitor : bool) (stream_server_log : bool).

Local Abbreviation run_game :=
  (run_one_game host_arg out_dir my_mode_arg my_seconds_arg monte_seconds_arg
     server_timeout_arg wall_timeout_s monitor stream_server_log).

Local Abbreviation loop_from :=
  (worker_loop_from host_arg out_dir my_mode_arg my_seconds_arg monte_seconds_arg
     server_timeout_arg wall_timeout_s monitor stream_server_log).

Local Abbreviation lane_loop :=
  (worker_loop host_arg out_dir my_mode_arg my_seconds_arg monte_seconds_arg
     server_timeout_arg wall_timeout_s monitor stream_server_log).

Local Abbreviation loop_unfold :=
  (loop_from_unfold host_arg out_dir my_mode_arg my_seconds_arg monte_seconds_arg
     server_timeout_arg wall_timeout_s monitor stream_server_log).

Local Abbreviation started :=
  (run_one_game_started host_arg out_dir my_mode_arg my_seconds_arg monte_seconds_arg
     server_timeout_arg wall_timeout_s monitor stream_server_log).

Local Abbreviation stopped_run :=
  (run_one_game_stopped host_arg out_dir my_mode_arg my_seconds_arg monte_seconds_arg
     server_timeout_arg wall_timeout_s monitor stream_server_log).

Local Abbreviation path_of := (path_of out_dir wall_timeout_s).
Local Abbreviation tee_acts := (tee_acts stream_server_log).
Local Abbreviation path_acts := (path_acts stream_server_log).
Local Abbreviation path_winner := (path_winner out_dir).
Local Abbreviation games_complete := (games_complete out_dir wall_timeout_s).
Local Abbreviation result_row :=
  (result_row host_arg my_mode_arg my_seconds_arg monte_seconds_arg server_timeout_arg).

Lemma is_set_cases (w w1 : World) (b : bool) :
  is_set w = Some (b, w1) ->
  trace w1 = trace w /\ (if b then stop_in w = Some O /\ w1 = w
                         else stop_in w <> Some O /\ w1 = after_read w).
Proof.
  unfold is_set, after_read. destruct (stop_in w) as [[|k]|] eqn:Hs; intros [= <- <-].
  - auto.
  - split; [reflexivity |]. split; [discriminate | reflexivity].
  - split; [reflexivity |]. split; [discriminate | reflexivity].
Qed.

Lemma is_set_returns (w : World) : exists b w1, is_set w = Some (b, w1).
Proof. unfold is_set. destruct (stop_in w) as [[|k]|]; eauto. Qed.

(** The loop returns whatever the flag does, when the games return. *)
Lemma loop_returns (envs : Z -> GameEnv) (worker games parallel port : Z) :
  1 <= parallel -> games_complete envs worker games ->
  forall (n fuel : nat) (g : Z) (results : list Row) (w : World),
    1 <= g -> length (stride g parallel games) = n -> (n < fuel)%nat ->
    exists all w', loop_from fuel envs worker games parallel port g results w = Some (all, w').
Proof.
  intros HP Hcomplete. induction n as [|n IH]; intros fuel g results w Hg Hlen Hfuel.
  - destruct fuel as [|fuel]; [lia |]. rewrite loop_unfold.
    destruct (Z.leb_spec g games) as [Hle | Hgt]; [| unfold ret; eauto].
    rewrite stride_cons in Hlen by lia. discriminate Hlen.
  - destruct fuel as [|fuel]; [lia |]. rewrite loop_unfold.
    destruct (Z.leb_spec g games) as [Hle | Hgt]; [| unfold ret; eauto].
    rewrite stride_cons in Hlen by lia. cbn [length] in Hlen.
    unfold bind at 1. destruct (is_set_returns w) as (b & w1 & His). rewrite His.
    destruct b; [unfold ret; eauto |].
    unfold bind.
    assert (Hgame : exists row w2, run_game (envs g) g worker port w1 = Some (row, w2)).
    { destruct (decide (stop_in w1 = Some O)) as [H1 | H1].
      - rewrite (stopped_run _ _ _ _ _ H1). eauto.
      - pose proof (started (envs g) g worker port w1 H1) as Hst.
        destruct (Hcomplete g ltac:(lia)) as [p Hp]. rewrite Hp in Hst.
        destruct Hst as (evs & Hrun & _). rewrite Hrun. eauto. }
    destruct Hgame as (row & w2 & Hrun). rewrite Hrun.
    apply IH; lia.
Qed.

(** X10.  A lane returns whenever the flag is set or not, provided each of
    its games returns: the loop makes at most one test per game of the lane
    and one more, and the rows it returns are for an initial part of the
    stride of the lane, in order. *)
Theorem lane_returns (envs : Z -> GameEnv) (worker games parallel port_base : Z)
    (fuel : nat) (w : World) :
  1 <= parallel -> 0 <= worker -> games_complete envs worker games ->
  (Z.to_nat games < fuel)%nat ->
  exists rows w',
    lane_loop fuel envs worker games parallel port_base w = Some (rows, w') /\
    map game rows `prefix_of` stride (worker + 1) parallel games.
Proof.
  intros HP Hw Hcomplete Hfuel. unfold worker_loop.
  destruct (loop_returns envs worker games parallel (port_base + worker) HP Hcomplete
              (length (stride (worker + 1) parallel games)) fuel (worker + 1) [] w)
    as (rows & w' & Hloop); [lia | reflexivity | |].
  { pose proof (stride_length_bound (worker + 1) parallel games). lia. }
  exists rows, w'. split; [exact Hloop |].
  eapply (lane_prefix host_arg out_dir my_mode_arg my_seconds_arg monte_seconds_arg
            server_timeout_arg wall_timeout_s monitor stream_server_log);
    [exact HP | exact Hloop].
Qed.

(** The actions of a started game: the server is started first and
    [kill_tree] on the server comes last, before the tee thread is joined;
    no other server is started in between. *)
Lemma path_acts_shape (g : Z) (p : GamePath) :
  p <> PathStopped ->
  exists mid,
    path_acts g p = ASpawn Server :: mid ++ AKill Server :: tee_acts /\
    occurrences (ASpawn Server) mid = 0%nat.
Proof.
  intros Hp. destruct p as [| | |my_w monte_w]; [congruence | | |].
  - exists tee_acts. split; [reflexivity |].
    unfold tee_acts. destruct stream_server_log; reflexivity.
  - exists (tee_acts ++ client_acts g ++ [AKill MyClient; AKill MonteClient]).
    split; [unfold path_acts; repeat (progress (rewrite <- ?app_assoc; cbn [app])); reflexivity |].
    unfold tee_acts, client_acts.
    destruct stream_server_log, (g mod 2 =? 1); reflexivity.
  - exists (tee_acts ++ client_acts g ++ [AKill Server] ++
            wait_acts MyClient my_w ++ wait_acts MonteClient monte_w).
    split; [unfold path_acts; repeat (progress (rewrite <- ?app_assoc; cbn [app])); reflexivity |].
    unfold tee_acts, client_acts, wait_acts.
    destruct stream_server_log, (g mod 2 =? 1), my_w, monte_w; reflexivity.
Qed.

Local Abbreviation block_of_row := (block_of_row stream_server_log).
Local Abbreviation row_of_lane :=
  (row_of_lane host_arg my_mode_arg my_seconds_arg monte_seconds_arg server_timeout_arg).

(** One game, as the loop sees it. *)
Lemma run_one_game_block (env : GameEnv) (g worker port : Z) (w w' : World) (row : Row) :
  run_game env g worker port w = Some (row, w') ->
  game row = g /\ row_of_lane worker port row /\
  exists b, trace w' = trace w ++ b /\ block_of_row row b.
Proof.
  intros Hrun. destruct (decide (stop_in w = Some O)) as [Hw | Hw].
  - rewrite (stopped_run _ _ _ _ _ Hw) in Hrun. injection Hrun as <- <-.
    split; [reflexivity |]. split; [reflexivity |].
    exists []. split; [symmetry; apply app_nil_r |].
    split; [constructor | left; split; reflexivity].
  - pose proof (started env g worker port w Hw) as Hst.
    destruct (path_of env worker g) as [p|] eqn:Hp; [| congruence].
    destruct Hst as (evs & Hrun' & Hacts & Hg). rewrite Hrun' in Hrun.
    injection Hrun as <- <-.
    split; [reflexivity |]. split; [reflexivity |].
    exists evs. split.
    + unfold add_events, after_read. cbn [trace].
      destruct (stop_in w) as [[|k]|]; reflexivity.
    + split; [exact Hg |]. right.
      destruct (path_acts_shape g p) as (mid & Hshape & Hmid);
        [eapply path_of_started; exact Hp |].
      exists mid. rewrite Hacts. split; assumption.
Qed.

Lemma loop_blocks (envs : Z -> GameEnv) (worker games parallel port : Z) :
  forall (fuel : nat) (g : Z) (results all : list Row) (w w' : World),
    loop_from fuel envs worker games parallel port g results w = Some (all, w') ->
    exists rows blocks,
      all = results ++ rows /\ trace w' = trace w ++ concat blocks /\
      Forall2 block_of_row rows blocks /\ Forall (row_of_lane worker port) rows.
Proof.
  induction fuel as [|fuel IH]; intros g results all w w'; [discriminate |].
  rewrite loop_unfold.
  assert (Hdone : Some (results, w) = Some (all, w') ->
            exists rows blocks,
              all = results ++ rows /\ trace w' = trace w ++ concat blocks /\
              Forall2 block_of_row rows blocks /\ Forall (row_of_lane worker port) rows).
  { intros [= <- <-]. exists [], []. rewrite !app_nil_r.
    repeat split; constructor. }
  destruct (g <=? games); [| exact Hdone].
  unfold bind at 1. destruct (is_set w) as [[b w1]|] eqn:His; [| discriminate].
  destruct (is_set_cases _ _ _ His) as [Htr Hb].
  destruct b.
  - destruct Hb as [_ ->]. exact Hdone.
  - unfold bind.
    destruct (run_game (envs g) g worker port w1) as [[row w2]|] eqn:Hrun; [| discriminate].
    intros Hloop. destruct (IH _ _ _ _ _ Hloop) as (rows & blocks & -> & Htrace & Hblocks & Hrows).
    destruct (run_one_game_block _ _ _ _ _ _ _ Hrun) as (_ & Hrow & b & Hb2 & Hblock).
    exists (row :: rows), (b :: blocks).
    split; [rewrite <- app_assoc; reflexivity |].
    split; [| split; constructor; assumption].
    rewrite Htrace, Hb2, Htr. cbn [concat]. rewrite app_assoc. reflexivity.
Qed.

(** X11.  A lane plays its games one after the other: its events are the
    events of its games, in the order of its rows; a game that found the
    flag set has no events; every other game starts by starting its server
    and ends with [kill_tree] on that server (and the join of the tee
    thread) without starting another server in between.  So the server of
    a game has been torn down before the server of the next game of the
    lane is started on the same port. *)
Theorem lane_games_in_sequence (envs : Z -> GameEnv) (worker games parallel port_base : Z)
    (fuel : nat) (w w' : World) (rows : list Row) :
  lane_loop fuel envs worker games parallel port_base w = Some (rows, w') ->
  exists blocks,
    trace w' = trace w ++ concat blocks /\ Forall2 block_of_row rows blocks.
Proof.
  unfold worker_loop. intros Hloop.
  destruct (loop_blocks _ _ _ _ _ _ _ _ _ _ _ Hloop) as (rows' & blocks & Hrows & Htrace & Hblocks & _).
  cbn [app] in Hrows. subst rows'. exists blocks. split; assumption.
Qed.

(** The rows of a lane carry the lane and its port. *)
Lemma lane_rows_form (envs : Z -> GameEnv) (lane games parallel port_base : Z)
    (fuel : nat) (w w' : World) (rows : list Row) :
  lane_loop fuel envs lane games parallel port_base w = Some (rows, w') ->
  Forall (row_of_lane lane (port_base + lane)) rows.
Proof.
  unfold worker_loop. intros Hloop.
  destruct (loop_blocks _ _ _ _ _ _ _ _ _ _ _ Hloop) as (rows' & blocks & Hrows & _ & _ & Hform).
  cbn [app] in Hrows. subst rows'. exact Hform.
Qed.

End LaneMore.

(** Lane 0 of four games on two lanes, cancelled while its game 1 is
    played (no server ever announces itself): it returns. *)
Lemma lane_returns_witness :
  exists rows w',
    worker_loop "localhost" "out" "tt" "3.0" 10 12 1200 false true
      5 (fun _ => env_timeout) 0 4 2 25033 {| stop_in := Some 2%nat; trace := [] |}
    = Some (rows, w') /\
    map game rows `prefix_of` stride (0 + 1) 2 4.
Proof.
  apply (lane_returns "localhost" "out" "tt" "3.0" 10 12 1200 false true
           (fun _ => env_timeout) 0 4 2 25033 5
           {| stop_in := Some 2%nat; trace := [] |}).
  - lia.
  - lia.
  - apply env_timeout_complete.
  - vm_compute. lia.
Defined.

(** Lane 0 of four games on two lanes, never cancelled. *)
Lemma lane_games_in_sequence_witness :
  exists rows w' blocks,
    worker_loop "localhost" "out" "tt" "3.0" 10 12 1200 false true
      5 (fun _ => env_timeout) 0 4 2 25033 fresh_world = Some (rows, w') /\
    map game rows = [1; 3] /\
    trace w' = trace fresh_world ++ concat blocks /\
    Forall2 (block_of_row true) rows blocks.
Proof.
  destruct (worker_loop "localhost" "out" "tt" "3.0" 10 12 1200 false true
              5 (fun _ => env_timeout) 0 4 2 25033 fresh_world) as [[rows w']|] eqn:Hloop.
  - destruct (lane_games_in_sequence "localhost" "out" "tt" "3.0" 10 12 1200 false true
                (fun _ => env_timeout) 0 4 2 25033 5 fresh_world w' rows Hloop)
      as (blocks & Htrace & Hblocks).
    exists rows, w', blocks. split; [reflexivity |].
    split; [| split; assumption].
    vm_compute in Hloop. injection Hloop as <- _. reflexivity.
  - vm_compute in Hloop. discriminate Hloop.
Defined.

(* ===================================================================== *)
(** * More on the merge                                                   *)
(* ===================================================================== *)

Section MergeMore.

Variables (host_arg : string) (out_dir : string).
Variables (my_mode_arg : string) (my_seconds_arg : string) (monte_seconds_arg : Z).
Variables (server_timeout_arg : Z) (wall_timeout_s : Z).
Variables (monitor : bool) (stream_server_log : bool).

Local Abbreviation lane_loop :=
  (worker_loop host_arg out_dir my_mode_arg my_seconds_arg monte_seconds_arg
     server_timeout_arg wall_timeout_s monitor stream_server_log).

Local Abbreviation lane_run :=
  (run_lane host_arg out_dir my_mode_arg my_seconds_arg monte_seconds_arg
     server_timeout_arg wall_timeout_s monitor stream_server_log).

Local Abbreviation collect_rows :=
  (collect host_arg out_dir my_mode_arg my_seconds_arg monte_seconds_arg
     server_timeout_arg wall_timeout_s monitor stream_server_log).

Local Abbreviation merged :=
  (main_results host_arg out_dir my_mode_arg my_seconds_arg monte_seconds_arg
     server_timeout_arg wall_timeout_s monitor stream_server_log).

Local Abbreviation lane_rows :=
  (lane_rows host_arg out_dir my_mode_arg my_seconds_arg monte_seconds_arg
     server_timeout_arg wall_timeout_s monitor stream_server_log).

Local Abbreviation row_of_lane :=
  (row_of_lane host_arg my_mode_arg my_seconds_arg monte_seconds_arg server_timeout_arg).

Local Abbreviation rows_inv :=
  (collect_rows_inv host_arg out_dir my_mode_arg my_seconds_arg monte_seconds_arg
     server_timeout_arg wall_timeout_s monitor stream_server_log).

Local Abbreviation rows_all :=
  (collect_rows_all host_arg out_dir my_mode_arg my_seconds_arg monte_seconds_arg
     server_timeout_arg wall_timeout_s monitor stream_server_log).

Local Abbreviation rows_prefix :=
  (lane_rows_prefix host_arg out_dir my_mode_arg my_seconds_arg monte_seconds_arg
     server_timeout_arg wall_timeout_s monitor stream_server_log).

Lemma nodup_map_inj {A B : Type} (f : A -> B) (l : list A) (x y : A) :
  NoDup (map f l) -> x ∈ l -> y ∈ l -> f x = f y -> x = y.
Proof.
  induction l as [|a l IH]; intros Hnd Hx Hy Hf; [inversion Hx |].
  cbn [map] in Hnd. apply NoDup_cons in Hnd as [Hnin Hnd].
  apply elem_of_cons in Hx as [-> | Hx]; apply elem_of_cons in Hy as [-> | Hy].
  - reflexivity.
  - exfalso. apply Hnin. rewrite Hf. apply list_elem_of_In, in_map, list_elem_of_In, Hy.
  - exfalso. apply Hnin. rewrite <- Hf. apply list_elem_of_In, in_map, list_elem_of_In, Hx.
  - apply IH; assumption.
Qed.

(** A row of the future of a lane. *)
Lemma lane_rows_member (fuel : nat) (lanes : Z -> LaneEnv) (games parallel port_base lane : Z)
    (r : Row) :
  1 <= parallel -> 0 <= lane < parallel ->
  r ∈ lane_rows fuel lanes games parallel port_base lane ->
  row_of_lane lane (port_base + lane) r /\
  1 <= game r <= games /\ (game r - 1) mod parallel = lane.
Proof.
  intros HP Hlane Hr. split.
  - revert Hr. unfold lane_rows, run_lane.
    destruct (lane_loop fuel (lane_games (lanes lane)) lane games parallel port_base
                {| stop_in := lane_stop_in (lanes lane); trace := [] |})
      as [[rows w']|] eqn:Hloop; [| intros Hr; inversion Hr].
    intros Hr.
    pose proof (lane_rows_form host_arg out_dir my_mode_arg my_seconds_arg monte_seconds_arg
                  server_timeout_arg wall_timeout_s monitor stream_server_log
                  _ _ _ _ _ _ _ _ _ Hloop) as Hform.
    rewrite Forall_forall in Hform. apply Hform, Hr.
  - destruct (rows_prefix fuel lanes games parallel port_base lane HP) as [k Hk].
    apply (stride_lane_member games parallel lane (game r) HP Hlane).
    rewrite Hk. apply in_or_app. left. apply in_map, list_elem_of_In, Hr.
Qed.

(** The games of the rows of the lanes, in any order of completion, are
    all different. *)
Lemma merged_games_nodup (fuel : nat) (lanes : Z -> LaneEnv) (games parallel port_base : Z)
    (completion : list Z) :
  1 <= parallel -> completion ≡ₚ range parallel ->
  NoDup (map game (completion ≫= lane_rows fuel lanes games parallel port_base)).
Proof.
  intros HP Hperm.
  assert (Hin : forall lane, lane ∈ completion -> 0 <= lane < parallel).
  { intros lane Hl. rewrite Hperm in Hl. apply elem_of_range, Hl. }
  rewrite fmap_bind_games. apply NoDup_bind.
  - intros x1 x2 y Hx1 Hx2 Hy1 Hy2.
    apply list_elem_of_In, in_map_iff in Hy1 as (r1 & <- & Hr1).
    apply list_elem_of_In, in_map_iff in Hy2 as (r2 & Hg & Hr2).
    apply list_elem_of_In in Hr1, Hr2.
    destruct (lane_rows_member _ _ _ _ _ _ _ HP (Hin _ Hx1) Hr1) as (_ & _ & <-).
    destruct (lane_rows_member _ _ _ _ _ _ _ HP (Hin _ Hx2) Hr2) as (_ & _ & <-).
    rewrite Hg. reflexivity.
  - intros lane Hl.
    destruct (rows_prefix fuel lanes games parallel port_base lane HP) as [k Hk].
    assert (Hs : NoDup (stride (lane + 1) parallel games))
      by (apply strict_sorted_nodup, stride_sorted, HP).
    rewrite Hk in Hs. apply NoDup_app in Hs as [Hs _]. exact Hs.
  - rewrite Hperm. apply range_nodup.
Qed.

(** X12.  In the summary of every run with [parallel >= 1] lanes,
    cancelled or not, the [worker] column of a row is [(game - 1) mod
    parallel] and its [port] column is [port_base + worker]: the games of
    one lane share one port and no two lanes share a port; the host, mode
    and time columns are the arguments of the run, and the connect order is
    that of the parity of the game. *)
Theorem summary_columns (fuel : nat) (lanes : Z -> LaneEnv) (games parallel port_base : Z)
    (completion : list Z) (rows : list Row) :
  1 <= parallel -> completion ≡ₚ range parallel ->
  merged fuel lanes games parallel port_base completion = Some rows ->
  Forall (fun r =>
            worker r = (game r - 1) mod parallel /\
            port r = port_base + worker r /\
            host r = host_arg /\ my_mode r = my_mode_arg /\
            my_seconds r = my_seconds_arg /\ monte_seconds r = monte_seconds_arg /\
            server_timeout r = server_timeout_arg /\
            connect_order r = (if game r mod 2 =? 1 then my_first else monte_first))
         rows.
Proof.
  intros HP Hperm Hrows. unfold main_results in Hrows.
  destruct (collect_rows fuel lanes games parallel port_base completion [])
    as [res|] eqn:Hcollect; [| discriminate].
  injection Hrows as <-. apply rows_inv in Hcollect as [-> _]. cbn [app].
  apply Forall_forall. intros r Hr. rewrite sort_rows_perm in Hr.
  apply list_elem_of_bind in Hr as (lane & Hr & Hl).
  assert (Hlane : 0 <= lane < parallel) by (rewrite Hperm in Hl; apply elem_of_range, Hl).
  destruct (lane_rows_member _ _ _ _ _ _ _ HP Hlane Hr) as (Hform & _ & Hmod).
  unfold row_of_lane in Hform.
  pose proof (f_equal worker Hform) as Hworker.
  pose proof (f_equal port Hform) as Hport.
  pose proof (f_equal host Hform) as Hhost.
  pose proof (f_equal my_mode Hform) as Hmode.
  pose proof (f_equal my_seconds Hform) as Hmy.
  pose proof (f_equal monte_seconds Hform) as Hmonte.
  pose proof (f_equal server_timeout Hform) as Htimeout.
  pose proof (f_equal connect_order Hform) as Horder.
  cbn in Hworker, Hport, Hhost, Hmode, Hmy, Hmonte, Htimeout, Horder.
  repeat split; try assumption; congruence.
Qed.

(** X13.  The summary does not depend on the order in which the lanes
    complete: for any two orders the merged, sorted rows are the same.  They
    are the rows the lanes returned, each once, in ascending order of
    game. *)
Theorem merge_ignores_completion_order
    (fuel : nat) (lanes : Z -> LaneEnv) (games parallel port_base : Z)
    (completion1 completion2 : list Z) :
  1 <= parallel -> completion1 ≡ₚ range parallel -> completion2 ≡ₚ range parallel ->
  merged fuel lanes games parallel port_base completion1
    = merged fuel lanes games parallel port_base completion2 /\
  (forall rows,
     merged fuel lanes games parallel port_base completion1 = Some rows ->
     rows ≡ₚ range parallel ≫= lane_rows fuel lanes games parallel port_base /\
     StronglySorted by_game rows).
Proof.
  intros HP Hperm1 Hperm2.
  set (f := lane_rows fuel lanes games parallel port_base).
  assert (Hsome : forall c rows,
            merged fuel lanes games parallel port_base c = Some rows ->
            rows = sort_rows (c ≫= f) /\
            Forall (fun lane => is_Some (lane_run fuel lanes games parallel port_base lane)) c).
  { intros c rows Hrows. unfold main_results in Hrows.
    destruct (collect_rows fuel lanes games parallel port_base c []) as [res|] eqn:Hc;
      [| discriminate].
    injection Hrows as <-. apply rows_inv in Hc as [-> Hall]. split; [reflexivity | exact Hall]. }
  assert (Hall : forall c,
            Forall (fun lane => is_Some (lane_run fuel lanes games parallel port_base lane)) c ->
            merged fuel lanes games parallel port_base c = Some (sort_rows (c ≫= f))).
  { intros c Hc. unfold main_results. rewrite (rows_all _ _ _ _ _ _ _ Hc). reflexivity. }
  assert (Hsame : sort_rows (completion1 ≫= f) = sort_rows (completion2 ≫= f)).
  { apply (StronglySorted_unique_strong by_game).
    - intros x1 x2 Hx1 Hx2 H12 H21. rewrite sort_rows_perm in Hx1, Hx2.
      assert (Hx2' : x2 ∈ completion1 ≫= f) by (rewrite Hperm1, <- Hperm2; exact Hx2).
      apply (nodup_map_inj game (completion1 ≫= f)); try assumption.
      + apply merged_games_nodup; assumption.
      + unfold by_game in H12, H21. lia.
    - apply sort_rows_sorted.
    - apply sort_rows_sorted.
    - rewrite !sort_rows_perm, Hperm1, Hperm2. reflexivity. }
  assert (Hmove : forall c c', c ≡ₚ c' ->
            Forall (fun lane => is_Some (lane_run fuel lanes games parallel port_base lane)) c ->
            Forall (fun lane => is_Some (lane_run fuel lanes games parallel port_base lane)) c').
  { intros c c' Hcc Hc. rewrite Forall_forall in Hc |- *.
    intros lane Hl. apply Hc. rewrite Hcc. exact Hl. }
  split.
  - destruct (merged fuel lanes games parallel port_base completion1) as [rows1|] eqn:H1.
    + destruct (Hsome _ _ H1) as [-> Hall1].
      rewrite (Hall completion2); [rewrite Hsame; reflexivity |].
      apply (Hmove completion1); [rewrite Hperm1, Hperm2; reflexivity | exact Hall1].
    + destruct (merged fuel lanes games parallel port_base completion2) as [rows2|] eqn:H2;
        [| reflexivity].
      destruct (Hsome _ _ H2) as [_ Hall2].
      rewrite (Hall completion1) in H1; [discriminate |].
      apply (Hmove completion2); [rewrite Hperm1, Hperm2; reflexivity | exact Hall2].
  - intros rows Hrows. destruct (Hsome _ _ Hrows) as [-> _]. split.
    + rewrite sort_rows_perm, Hperm1. reflexivity.
    + apply sort_rows_sorted.
Qed.

(** X14.  A lane whose first game, [lane + 1], is beyond [games] does
    nothing: it returns no row without reading the flag and without
    starting a process, whatever [parallel] is.  So a run of no games (or
    of a negative number of games) writes a summary without rows. *)
Theorem no_games_no_rows (fuel : nat) (lanes : Z -> LaneEnv)
    (games parallel port_base : Z) (completion : list Z) :
  (forall envs lane w,
     games < lane + 1 ->
     lane_loop (S fuel) envs lane games parallel port_base w = Some ([], w)) /\
  (games <= 0 -> Forall (fun lane => 0 <= lane) completion ->
   merged (S fuel) lanes games parallel port_base completion = Some []).
Proof.
  assert (Hidle : forall envs lane w,
            games < lane + 1 ->
            lane_loop (S fuel) envs lane games parallel port_base w = Some ([], w)).
  { intros envs lane w Hlane. unfold worker_loop. cbn [worker_loop_from].
    assert (Hgt : (lane + 1 <=? games) = false) by (apply Z.leb_gt; lia).
    rewrite Hgt. reflexivity. }
  split; [exact Hidle |].
  intros Hgames Hlanes. unfold main_results.
  assert (Hcollect : collect_rows (S fuel) lanes games parallel port_base completion []
                     = Some []).
  { induction Hlanes as [|lane rest Hlane _ IH]; [reflexivity |].
    cbn [collect]. unfold run_lane. rewrite Hidle by lia. exact IH. }
  rewrite Hcollect. reflexivity.
Qed.

End MergeMore.

(** Four games on two lanes that are cancelled while their first games are
    played: the summary has the games 1 and 2, each with its lane and the
    port of its lane. *)
Lemma summary_columns_witness :
  exists rows,
    main_results "localhost" "out" "tt" "3.0" 10 12 1200 false true
      5 lanes_cancelled_midway 4 2 25033 [1; 0] = Some rows /\
    map (fun r => (game r, worker r, port r)) rows = [(1, 0, 25033); (2, 1, 25034)] /\
    Forall (fun r =>
              worker r = (game r - 1) mod 2 /\
              port r = 25033 + worker r /\
              host r = "localhost" /\ my_mode r = "tt" /\
              my_seconds r = "3.0" /\ monte_seconds r = 10 /\
              server_timeout r = 12 /\
              connect_order r = (if game r mod 2 =? 1 then my_first else monte_first))
           rows.
Proof.
  destruct (main_results "localhost" "out" "tt" "3.0" 10 12 1200 false true
              5 lanes_cancelled_midway 4 2 25033 [1; 0]) as [rows|] eqn:Hrows.
  - exists rows. split; [reflexivity |]. split.
    + vm_compute in Hrows. injection Hrows as <-. reflexivity.
    + apply (summary_columns "localhost" "out" "tt" "3.0" 10 12 1200 false true
               5 lanes_cancelled_midway 4 2 25033 [1; 0] rows);
        [lia | apply Permutation_swap | exact Hrows].
  - vm_compute in Hrows. discriminate Hrows.
Defined.

(** Lane 1 completing before lane 0, or after it: the same summary. *)
Lemma merge_ignores_completion_order_witness :
  main_results "localhost" "out" "tt" "3.0" 10 12 1200 false true
    5 lanes_uncancelled 4 2 25033 [1; 0]
  = main_results "localhost" "out" "tt" "3.0" 10 12 1200 false true
      5 lanes_uncancelled 4 2 25033 [0; 1].
Proof.
  apply (merge_ignores_completion_order "localhost" "out" "tt" "3.0" 10 12 1200 false true
           5 lanes_uncancelled 4 2 25033 [1; 0] [0; 1]).
  - lia.
  - apply Permutation_swap.
  - reflexivity.
Defined.

(** Three lanes and no game. *)
Lemma no_games_no_rows_witness :
  main_results "localhost" "out" "tt" "3.0" 10 12 1200 false true
    1 lanes_uncancelled 0 3 25033 [2; 0; 1] = Some [].
Proof.
  apply (no_games_no_rows "localhost" "out" "tt" "3.0" 10 12 1200 false true
           0 lanes_uncancelled 0 3 25033 [2; 0; 1]).
  - lia.
  - repeat constructor; lia.
Defined.

(* ===================================================================== *)
(** * The log files: their names and their line endings                   *)
(* ===================================================================== *)

Section Logs.

Lemma append_nil_l (s : string) : EmptyString +:+ s = s.
Proof. reflexivity. Qed.

Lemma append_inj_l (s a b : string) : s +:+ a = s +:+ b -> a = b.
Proof.
  induction s as [|c s IH]; [trivial |].
  rewrite !append_cons. intros [= H]. apply IH, H.
Qed.

(** Two texts that agree up to the first occurrence of [c] in each. *)
Lemma append_sep_inj (c : ascii) (s1 s2 t1 t2 : string) :
  char_free c s1 = true -> char_free c s2 = true ->
  s1 +:+ String c t1 = s2 +:+ String c t2 -> s1 = s2 /\ t1 = t2.
Proof.
  revert s2. induction s1 as [|a s1 IH]; intros [|b s2] H1 H2; rewrite ?append_cons.
  - intros [= ->]. split; reflexivity.
  - intros [= <- _]. cbn [char_free] in H2. rewrite Ascii.eqb_refl in H2. discriminate.
  - intros [= -> _]. cbn [char_free] in H1. rewrite Ascii.eqb_refl in H1. discriminate.
  - intros [= <- Hrest]. cbn [char_free] in H1, H2.
    apply andb_true_iff in H1 as [_ H1]. apply andb_true_iff in H2 as [_ H2].
    destruct (IH _ H1 H2 Hrest) as [-> ->]. split; reflexivity.
Qed.

(** [str(n)] is made of digits and a minus sign. *)
Lemma str_of_uint_free (c : ascii) (d : Decimal.uint) :
  (N_of_ascii c <? 48)%N || (57 <? N_of_ascii c)%N = true ->
  char_free c (NilEmpty.string_of_uint d) = true.
Proof.
  intros Hc. induction d; cbn [NilEmpty.string_of_uint char_free]; rewrite ?IHd;
    try reflexivity; rewrite andb_true_r; apply negb_true_iff, Ascii.eqb_neq;
    intros <-; discriminate Hc.
Qed.

Lemma str_of_Z_free (c : ascii) (n : Z) :
  negb (N_of_ascii c =? 45)%N && ((N_of_ascii c <? 48)%N || (57 <? N_of_ascii c)%N) = true ->
  char_free c (PyStr.str_of_Z n) = true.
Proof.
  intros Hc. apply andb_true_iff in Hc as [Hc Hd].
  assert (Hu : forall d, char_free c (NilZero.string_of_uint d) = true).
  { intros d. destruct d; try apply (str_of_uint_free c _ Hd).
    cbn [NilZero.string_of_uint char_free]. rewrite andb_true_r.
    apply negb_true_iff, Ascii.eqb_neq. intros <-. discriminate Hd. }
  unfold PyStr.str_of_Z. destruct (Z.to_int n) as [d|d]; cbn [NilZero.string_of_int].
  - apply Hu.
  - cbn [char_free]. rewrite Hu, andb_true_r.
    apply negb_true_iff, Ascii.eqb_neq. intros <-. discriminate Hc.
Qed.

(** [str] is injective on [int]. *)
Lemma str_of_Z_inj (a b : Z) : PyStr.str_of_Z a = PyStr.str_of_Z b -> a = b.
Proof.
  unfold PyStr.str_of_Z. intros H.
  assert (Hn : forall z, Z.to_int z <> Decimal.Pos Decimal.Nil /\
                         Z.to_int z <> Decimal.Neg Decimal.Nil).
  { intros [|p|p]; cbn; split; try discriminate;
      intros [= Hp]; exact (DecimalPos.Unsigned.to_uint_nonnil p Hp). }
  apply (f_equal NilZero.int_of_string) in H.
  rewrite !NilZero.isi in H by apply Hn.
  injection H as H. apply (f_equal Z.of_int) in H. rewrite !DecimalZ.of_to in H. exact H.
Qed.

Lemma log_name_role (role1 role2 : string) (w1 w2 g1 g2 : Z) :
  role1 ∈ log_roles -> role2 ∈ log_roles ->
  log_name role1 w1 g1 = log_name role2 w2 g2 -> role1 = role2.
Proof.
  unfold log_roles, log_name. intros H1 H2.
  repeat (apply elem_of_cons in H1 as [-> | H1]); [| | | inversion H1];
    repeat (apply elem_of_cons in H2 as [-> | H2]); try (inversion H2; fail);
    rewrite ?append_cons; intros H; try reflexivity; congruence.
Qed.

(** X15.  The log files of a run are all different: two logs with the same
    path, under any output directory, are the same kind of log of the same
    game on the same lane.  So no game overwrites a log of another game, or
    another of its own logs. *)
Theorem log_files_distinct (dir role1 role2 : string) (w1 w2 g1 g2 : Z) :
  role1 ∈ log_roles -> role2 ∈ log_roles ->
  path_join dir (log_name role1 w1 g1) = path_join dir (log_name role2 w2 g2) ->
  role1 = role2 /\ w1 = w2 /\ g1 = g2.
Proof.
  intros H1 H2 Hpath. unfold path_join in Hpath.
  apply append_inj_l, append_inj_l in Hpath.
  assert (Hrole := log_name_role _ _ _ _ _ _ H1 H2 Hpath). subst role2.
  split; [reflexivity |].
  unfold log_name in Hpath. apply append_inj_l in Hpath.
  rewrite !append_cons, !append_nil_l in Hpath. injection Hpath as Hpath.
  apply append_sep_inj in Hpath as [Hw Hrest];
    [| apply str_of_Z_free; reflexivity | apply str_of_Z_free; reflexivity].
  injection Hrest as Hrest.
  apply append_sep_inj in Hrest as [Hg _];
    [| apply str_of_Z_free; reflexivity | apply str_of_Z_free; reflexivity].
  split; apply str_of_Z_inj; assumption.
Qed.

Lemma log_files_distinct_witness :
  path_join "out" (log_name "my" 1 12) = path_join "out" (log_name "my" 1 12) /\
  ("my" = "my" /\ 1 = 1 /\ 12 = 12).
Proof.
  split; [reflexivity |].
  apply (log_files_distinct "out" "my" "my" 1 1 12 12).
  - unfold log_roles. apply elem_of_cons. right. apply elem_of_cons. left. reflexivity.
  - unfold log_roles. apply elem_of_cons. right. apply elem_of_cons. left. reflexivity.
  - reflexivity.
Defined.

End Logs.

Section LineEndings.

Lemma splitlines_line_lf (l rest : string) :
  has_linebreak l = false ->
  PyStr.splitlines (l +:+ LF +:+ rest) = l :: PyStr.splitlines rest.
Proof.
  induction l as [|c l IH]; intros Hb.
  - reflexivity.
  - cbn [has_linebreak] in Hb. apply orb_false_iff in Hb as [Hc Hl].
    rewrite append_cons, splitlines_cons by assumption.
    rewrite (IH Hl). reflexivity.
Qed.

Lemma splitlines_line_crlf (l rest : string) :
  has_linebreak l = false ->
  PyStr.splitlines (l +:+ CRLF +:+ rest) = l :: PyStr.splitlines rest.
Proof.
  induction l as [|c l IH]; intros Hb.
  - reflexivity.
  - cbn [has_linebreak] in Hb. apply orb_false_iff in Hb as [Hc Hl].
    rewrite append_cons, splitlines_cons by assumption.
    rewrite (IH Hl). reflexivity.
Qed.

Lemma splitlines_join (lines : list string) :
  Forall (fun l => has_linebreak l = false) lines ->
  PyStr.splitlines (join_lines LF lines) = lines /\
  PyStr.splitlines (join_lines CRLF lines) = lines.
Proof.
  induction 1 as [|l rest Hl _ [IHlf IHcrlf]]; [split; reflexivity |].
  cbn [join_lines fold_right]. fold (join_lines LF rest). fold (join_lines CRLF rest).
  rewrite splitlines_line_lf, splitlines_line_crlf, IHlf, IHcrlf by assumption.
  split; reflexivity.
Qed.

(** X16.  The classification of a log does not depend on its line endings:
    a log whose lines end with CR LF is read as the same lines, and gets the
    same result, as the log whose lines end with LF; the result is the one
    of the loop over these lines, empty lines included. *)
Theorem line_endings_do_not_matter (fs : FS) (path : string) (lines : list string) :
  Forall (fun l => has_linebreak l = false) lines ->
  PyStr.splitlines (join_lines CRLF lines) = PyStr.splitlines (join_lines LF lines) /\
  PyStr.splitlines (join_lines LF lines) = lines /\
  parse_winner_from_log (<[path := join_lines CRLF lines]> fs) path
    = parse_winner_from_log (<[path := join_lines LF lines]> fs) path /\
  parse_winner_from_log (<[path := join_lines LF lines]> fs) path
    = fold_left scan_line lines no_end.
Proof.
  intros Hlines. destruct (splitlines_join lines Hlines) as [Hlf Hcrlf].
  unfold parse_winner_from_log, parse_winner_from_text.
  rewrite !lookup_insert_eq, Hlf, Hcrlf. repeat split; reflexivity.
Qed.

(** A log of three lines, one of them empty, ending with a result line. *)
Lemma line_endings_do_not_matter_witness :
  parse_winner_from_log
    (<["out/my_w0_g1.log" := join_lines CRLF ["START"; ""; "END You win."]]> ∅)
    "out/my_w0_g1.log" = my.
Proof.
  destruct (line_endings_do_not_matter ∅ "out/my_w0_g1.log" ["START"; ""; "END You win."])
    as (_ & _ & Hcrlf & Hlf).
  - repeat constructor.
  - rewrite Hcrlf, Hlf. reflexivity.
Defined.

End LineEndings.
